(** * THP utilization scanner (mm/thp_utilization.c)

    A shallow embedding of the periodic scanner that walks physical memory
    in slices of [THP_UTIL_SCAN_SIZE] huge pages, classifies every anonymous
    transparent huge page by the number of its non-zero subpages, and
    publishes a histogram on debugfs once a pass over all zones is complete.

    C integers are integers of [Z] with the wrap-around of their type written
    out: [int] is 32-bit two's complement (the kernel is built with
    -fno-strict-overflow), [unsigned long] is 64-bit (LP64). *)

From Stdlib Require Import ZArith Lia.
From Stdlib.Strings Require Import Byte.
From stdpp Require Import base numbers option list.

Local Open Scope Z_scope.

(** ** Machine integers *)

(** Conversion to [int]. *)
Definition to_int (z : Z) : Z := (z + 2 ^ 31) mod 2 ^ 32 - 2 ^ 31.

(** Conversion to [unsigned long]. *)
Definition to_ulong (z : Z) : Z := z mod 2 ^ 64.

Definition INT_MIN : Z := - 2 ^ 31.
Definition INT_MAX : Z := 2 ^ 31 - 1.

(** ** Platform constants

    [PAGE_SHIFT] and [HPAGE_PMD_SHIFT] are architecture constants defined in
    headers outside mm/thp_utilization.c; the development is parametric in
    them.  The macros the file uses are derived the way the kernel headers
    derive them: [HPAGE_PMD_NR] counts base pages (an [int]),
    [HPAGE_PMD_SIZE] counts bytes (an [unsigned long]). *)
Class platform := Platform { PAGE_SHIFT : Z; HPAGE_PMD_SHIFT : Z }.

(** x86-64 with 4 KiB base pages and 2 MiB huge pages. *)
Definition x86_64 : platform := Platform 12 21.

Section Scanner.
Context {P : platform}.

Definition PAGE_SIZE : Z := to_ulong (Z.shiftl 1 PAGE_SHIFT).
Definition HPAGE_PMD_ORDER : Z := HPAGE_PMD_SHIFT - PAGE_SHIFT.
Definition HPAGE_PMD_NR : Z := to_int (Z.shiftl 1 HPAGE_PMD_ORDER).
Definition HPAGE_PMD_SIZE : Z := to_ulong (Z.shiftl 1 HPAGE_PMD_SHIFT).

(** The shifts a supported configuration can have: a huge page is at least
    one base page and at most 2^27 of them, so that
    [HPAGE_PMD_NR * THP_UTIL_BUCKET_NR] fits an [int]. *)
Definition platform_ok : Prop :=
  0 <= PAGE_SHIFT /\ PAGE_SHIFT <= HPAGE_PMD_SHIFT /\
  HPAGE_PMD_SHIFT - PAGE_SHIFT <= 27 /\ HPAGE_PMD_SHIFT < 64.

(** The number of utilization buckets THPs are grouped in. *)
Definition THP_UTIL_BUCKET_NR : Z := 10.

(** The number of huge pages scanned on each periodic run. *)
Definition THP_UTIL_SCAN_SIZE : nat := 256.

(** ** Data *)

Record thp_scan_info_bucket := Bucket {
  nr_thps : Z;
  nr_zero_pages : Z
}.

Record timespec64 := Timespec64 { tv_sec : Z; tv_nsec : Z }.

(** [scan_zone] is a pointer into the zone enumeration: [None] is NULL,
    [Some i] points at the [i]-th zone. *)
Record thp_scan_info := ScanInfo {
  buckets : list thp_scan_info_bucket;
  scan_zone : option nat;
  last_scan_duration : timespec64;
  last_scan_time : timespec64;
  pfn : Z
}.

(** The two file-scope objects. *)
Record globals := Globals {
  thp_scan_debugfs : thp_scan_info;
  thp_scan : thp_scan_info
}.

Definition zero_bucket : thp_scan_info_bucket := Bucket 0 0.

Definition zero_buckets : list thp_scan_info_bucket :=
  replicate (Z.to_nat THP_UTIL_BUCKET_NR) zero_bucket.

Definition zero_scan_info : thp_scan_info :=
  ScanInfo zero_buckets None (Timespec64 0 0) (Timespec64 0 0) 0.

(** Static storage is zero-initialised. *)
Definition init_globals : globals := Globals zero_scan_info zero_scan_info.

(** Modelled from the spec: the page-frame database collaborator lives in
    headers and files outside mm/thp_utilization.c.  It provides an ordered
    enumeration of memory zones, each with its start and end frame bounds
    and an "eligible for scanning" predicate ([managed_zone]). *)
Record zone := Zone {
  zone_start_pfn : Z;
  zone_end_pfn : Z;
  managed_zone : bool
}.

(** Memory seen from an address: the byte at every offset from it. *)
Definition page_bytes : Type := Z -> byte.

(** Modelled from the spec: the page-frame database provides read-only
    content mapping of a page.  The source knows a folio only through its
    flag tests, its page count and the mapping of its memory.  The pages of
    a folio follow one another in memory: [folio_memory] is the memory from
    the folio's first byte on, page [p] being the PAGE_SIZE bytes from byte
    [p * PAGE_SIZE]. *)
Record folio := Folio {
  folio_test_anon : bool;
  folio_test_large : bool;
  folio_nr_pages : Z;
  folio_memory : page_bytes
}.

(** A handle on a [struct page]. *)
Definition page : Type := nat.

(** Modelled from the spec: lookup of a live page object at a frame number
    (may be absent), and the folio a page belongs to. *)
Record page_frame_db := PageFrameDb {
  pfn_to_online_page : Z -> option page;
  page_folio : page -> folio
}.

(** Modelled from the spec: [next_zone] is the successor in the zone
    enumeration, NULL after the last zone of the last node; the first zone
    of the first online node is the head of the enumeration. *)
Definition next_zone (zones : list zone) (z : nat) : option nat :=
  if decide (S z < length zones)%nat then Some (S z) else None.

Definition first_online_zone : nat := 0%nat.

(** Modelled from the spec: PageContentInspector.  [memchr_inv] returns the
    offset of the first of [bytes] bytes that differs from [c], and NULL
    when there is none. *)
Fixpoint memchr_inv_from (start : page_bytes) (c : byte) (off : Z)
    (bytes : nat) : option Z :=
  match bytes with
  | O => None
  | S n =>
      if Byte.eqb (start off) c
      then memchr_inv_from start c (off + 1) n
      else Some off
  end.

Definition memchr_inv (start : page_bytes) (c : byte) (bytes : nat) : option Z :=
  memchr_inv_from start c 0 bytes.

Definition NSEC_PER_SEC : Z := 1000000000.

(** Modelled from the spec: [timespec64_sub] belongs to the kernel's time
    library; the spec says pass_duration = now - previous_pass_start.  The
    difference is taken field by field and normalised so that
    [0 <= tv_nsec < NSEC_PER_SEC]. *)
Definition set_normalized_timespec64 (sec nsec : Z) : timespec64 :=
  Timespec64 (sec + nsec / NSEC_PER_SEC) (nsec mod NSEC_PER_SEC).

Definition timespec64_sub (lhs rhs : timespec64) : timespec64 :=
  set_normalized_timespec64 (tv_sec lhs - tv_sec rhs) (tv_nsec lhs - tv_nsec rhs).

Definition timespec64_to_ns (ts : timespec64) : Z :=
  tv_sec ts * NSEC_PER_SEC + tv_nsec ts.

(** ** Field updates *)

Definition set_buckets (v : list thp_scan_info_bucket) (s : thp_scan_info) :=
  ScanInfo v (scan_zone s) (last_scan_duration s) (last_scan_time s) (pfn s).
Definition set_scan_zone (v : option nat) (s : thp_scan_info) :=
  ScanInfo (buckets s) v (last_scan_duration s) (last_scan_time s) (pfn s).
Definition set_last_scan_duration (v : timespec64) (s : thp_scan_info) :=
  ScanInfo (buckets s) (scan_zone s) v (last_scan_time s) (pfn s).
Definition set_last_scan_time (v : timespec64) (s : thp_scan_info) :=
  ScanInfo (buckets s) (scan_zone s) (last_scan_duration s) v (pfn s).
Definition set_pfn (v : Z) (s : thp_scan_info) :=
  ScanInfo (buckets s) (scan_zone s) (last_scan_duration s) (last_scan_time s) v.

Definition with_scan (f : thp_scan_info -> thp_scan_info) (g : globals) :=
  Globals (thp_scan_debugfs g) (f (thp_scan g)).
Definition with_debugfs (f : thp_scan_info -> thp_scan_info) (g : globals) :=
  Globals (f (thp_scan_debugfs g)) (thp_scan g).

(** ** thp_utilization_show *)

(** One [seq_printf] call: the format used and its arguments. *)
Inductive seq_line :=
| Utilized (start end_ nr_thps nr_zero_pages : Z)
| LastScanTime (sec hundredths : Z)
| LastScanDuration (sec hundredths : Z).

Definition show_bucket (bs : list thp_scan_info_bucket) (i : Z) : seq_line :=
  let start := to_int (Z.quot (to_int (i * HPAGE_PMD_NR)) THP_UTIL_BUCKET_NR) in
  let end_ :=
    if to_int (i + 1) =? THP_UTIL_BUCKET_NR
    then HPAGE_PMD_NR
    else to_int (to_int (Z.quot (to_int (to_int (i + 1) * HPAGE_PMD_NR))
                                THP_UTIL_BUCKET_NR) - 1) in
  let b := default zero_bucket (bs !! Z.to_nat i) in
  Utilized start end_ (nr_thps b) (nr_zero_pages b).

Definition thp_utilization_show (g : globals) : list seq_line :=
  let d := thp_scan_debugfs g in
  (show_bucket (buckets d) <$> seqZ 0 THP_UTIL_BUCKET_NR) ++
  [ LastScanTime (to_ulong (tv_sec (last_scan_time d)))
                 (to_ulong (Z.quot (tv_nsec (last_scan_time d))
                                   (Z.quot NSEC_PER_SEC 100)));
    LastScanDuration (to_ulong (tv_sec (last_scan_duration d)))
                     (to_ulong (Z.quot (tv_nsec (last_scan_duration d))
                                       (Z.quot NSEC_PER_SEC 100))) ].

(** ** thp_utilization_bucket *)

Definition thp_utilization_bucket (num_utilized_pages : Z) : Z :=
  if (num_utilized_pages <? 0) || (num_utilized_pages >? HPAGE_PMD_NR)
  then -1
  else
    let bucket :=
      to_int (Z.quot (to_int (num_utilized_pages * THP_UTIL_BUCKET_NR))
                     HPAGE_PMD_NR) in
    Z.min bucket (THP_UTIL_BUCKET_NR - 1).

(** ** thp_number_utilized_pages *)

(** Modelled from the spec: read-only content mapping with guaranteed
    release.  [kmap_local_folio] is declared in the kernel's highmem
    header, not in this file: its second argument is a byte offset into
    the folio, and its result the address of that byte.  On a 64-bit kernel
    the folio is mapped in one piece, so the bytes from the returned address
    on are the bytes of the folio from [offset] on.  [kunmap_local] only
    releases the mapping. *)
Definition kmap_local_folio (f : folio) (offset : Z) : page_bytes :=
  fun k => folio_memory f (offset + k).

(** [zero_page = !memchr_inv(kaddr, 0, PAGE_SIZE)]. *)
Definition zero_page (kaddr : page_bytes) : bool :=
  match memchr_inv kaddr x00 (Z.to_nat PAGE_SIZE) with
  | None => true
  | Some _ => false
  end.

(** The test and the decrement of the loop body, on the address [kaddr]
    that [kmap_local_folio] returned. *)
Definition count_page (thp_nr_utilized_pages : Z) (kaddr : page_bytes) : Z :=
  if zero_page kaddr
  then to_int (thp_nr_utilized_pages - 1)
  else thp_nr_utilized_pages.

(** The argument is a folio pointer, [None] for NULL.  The loop runs [i]
    from 0 to [folio_nr_pages - 1] and passes [i] itself to
    [kmap_local_folio]: iteration [i] tests the PAGE_SIZE bytes of the
    folio that start at byte [i]. *)
Definition thp_number_utilized_pages (fo : option folio) : Z :=
  match fo with
  | None => -1
  | Some f =>
      if negb (folio_test_anon f) || negb (folio_test_large f)
      then -1
      else
        foldl (fun thp_nr_utilized_pages i =>
                 count_page thp_nr_utilized_pages (kmap_local_folio f i))
              HPAGE_PMD_NR (seqZ 0 (folio_nr_pages f))
  end.

(** The folios the scanner accounts for: present, anonymous and large. *)
Definition eligible (fo : option folio) : Prop :=
  exists f, fo = Some f /\ folio_test_anon f = true /\ folio_test_large f = true.

(** ** thp_scan_next_zone *)

(** The function returns nothing; the model also hands back its local
    [update_debugfs], which tells whether the pass was published.  The
    result is [None] when a NULL or dangling zone pointer is dereferenced. *)
Definition thp_scan_next_zone_traced (zones : list zone) (now : timespec64)
    (g : globals) : option (globals * bool) :=
  z ← scan_zone (thp_scan g);
  _ ← zones !! z;
  let nz := next_zone zones z in
  let update_debugfs := bool_decide (nz = None) in
  zi ← (if update_debugfs then Some first_online_zone else nz);
  zn ← zones !! zi;
  let pfn' :=
    Z.land (to_ulong (zone_start_pfn zn + HPAGE_PMD_NR - 1))
           (to_ulong (Z.lnot (to_ulong (HPAGE_PMD_SIZE - 1)))) in
  let g := with_scan (fun s => set_pfn pfn' (set_scan_zone (Some zi) s)) g in
  if negb update_debugfs then Some (g, false)
  else
    let current_time := now in
    let g :=
      with_debugfs
        (fun d => set_last_scan_duration
                    (timespec64_sub current_time (last_scan_time d)) d) g in
    let g := with_debugfs (set_last_scan_time current_time) g in
    let g := with_debugfs (set_buckets (buckets (thp_scan g))) g in
    let g := with_scan (set_buckets zero_buckets) g in
    Some (g, true).

Definition thp_scan_next_zone (zones : list zone) (now : timespec64)
    (g : globals) : option globals :=
  fst <$> thp_scan_next_zone_traced zones now g.

(** ** thp_util_scan *)

(** What one iteration of the scan loop did: left the function at the end of
    the zone, skipped the frame ([continue]), or counted a huge page with
    [num_utilized_pages] utilized subpages into [bucket]. *)
Inductive scan_outcome :=
| ScanReturn
| ScanSkip
| ScanCount (bucket num_utilized_pages : Z).

(** [buckets[bucket].nr_thps++] and
    [buckets[bucket].nr_zero_pages += HPAGE_PMD_NR - num_utilized_pages]. *)
Definition count_thp (num_utilized_pages : Z) (b : thp_scan_info_bucket)
  : thp_scan_info_bucket :=
  Bucket (to_int (nr_thps b + 1))
         (to_int (nr_zero_pages b + to_int (HPAGE_PMD_NR - num_utilized_pages))).

(** [current_pfn = thp_scan.pfn]: the cursor stored into an [int]. *)
Definition current_pfn_of (g : globals) : Z := to_int (pfn (thp_scan g)).

(** [current_pfn >= pfn_end]: the [int] is converted to [unsigned long]
    for the comparison. *)
Definition zone_end_reached (current_pfn pfn_end : Z) : bool :=
  pfn_end <=? to_ulong current_pfn.

Definition thp_util_scan_iter (db : page_frame_db) (pfn_end : Z) (g : globals)
  : globals * scan_outcome :=
  let current_pfn := current_pfn_of g in
  let g := with_scan (fun s => set_pfn (to_ulong (pfn s + HPAGE_PMD_NR)) s) g in
  if zone_end_reached current_pfn pfn_end then (g, ScanReturn)
  else
    match pfn_to_online_page db (to_ulong current_pfn) with
    | None => (g, ScanSkip)
    | Some pg =>
        let num_utilized_pages :=
          thp_number_utilized_pages (Some (page_folio db pg)) in
        let bucket := thp_utilization_bucket num_utilized_pages in
        if bucket <? 0 then (g, ScanSkip)
        else
          (with_scan
             (fun s => set_buckets
                         (alter (count_thp num_utilized_pages)
                                (Z.to_nat bucket) (buckets s)) s) g,
           ScanCount bucket num_utilized_pages)
    end.

(** The [for] loop with [n] iterations left, and the outcomes of the
    iterations it ran. *)
Fixpoint thp_util_scan_loop (db : page_frame_db) (pfn_end : Z) (n : nat)
    (g : globals) : globals * list scan_outcome :=
  match n with
  | O => (g, [])
  | S n' =>
      let '(g', o) := thp_util_scan_iter db pfn_end g in
      match o with
      | ScanReturn => (g', [o])
      | _ =>
          let '(g'', tr) := thp_util_scan_loop db pfn_end n' g' in
          (g'', o :: tr)
      end
  end.

Definition thp_util_scan_traced (db : page_frame_db) (pfn_end : Z) (g : globals)
  : globals * list scan_outcome :=
  thp_util_scan_loop db pfn_end THP_UTIL_SCAN_SIZE g.

Definition thp_util_scan (db : page_frame_db) (pfn_end : Z) (g : globals)
  : globals :=
  (thp_util_scan_traced db pfn_end g).1.

(** ** thp_utilization_workfn *)

(** What one firing of the delayed work did. *)
Inductive firing :=
| FiringScan (tr : list scan_outcome)
| FiringNextZone (update_debugfs : bool).

Definition thp_utilization_workfn_traced (zones : list zone) (db : page_frame_db)
    (now : timespec64) (g : globals) : option (globals * firing) :=
  let g :=
    match scan_zone (thp_scan g) with
    | None => with_scan (set_scan_zone (Some first_online_zone)) g
    | Some _ => g
    end in
  z ← scan_zone (thp_scan g);
  zn ← zones !! z;
  let pfn_end := zone_end_pfn zn in
  if negb (managed_zone zn) || (pfn_end <=? pfn (thp_scan g))
  then
    '(g', b) ← thp_scan_next_zone_traced zones now g;
    Some (g', FiringNextZone b)
  else
    let '(g', tr) := thp_util_scan_traced db pfn_end g in
    Some (g', FiringScan tr).

Definition thp_utilization_workfn (zones : list zone) (db : page_frame_db)
    (now : timespec64) (g : globals) : option globals :=
  fst <$> thp_utilization_workfn_traced zones db now g.

(** ** Runs of the scheduler *)

(** The scan iterations a firing performed. *)
Definition firing_steps (f : firing) : nat :=
  match f with
  | FiringScan tr => length tr
  | FiringNextZone _ => 0%nat
  end.

(** The huge pages an outcome list counted: bucket and utilized count. *)
Definition counted (tr : list scan_outcome) : list (Z * Z) :=
  omap (fun o => match o with
                 | ScanCount b u => Some (b, u)
                 | _ => None
                 end) tr.

(** The huge pages counted since the last publication, after a firing. *)
Definition log_after (f : firing) (log : list (Z * Z)) : list (Z * Z) :=
  match f with
  | FiringScan tr => log ++ counted tr
  | FiringNextZone true => []
  | FiringNextZone false => log
  end.

(** The work item re-arms itself after every firing; a run is the sequence
    of its firings, each with the memory it finds and the time it reads.
    [log] is the list of huge pages counted in the pass under way. *)
Fixpoint run (zones : list zone) (ticks : list (page_frame_db * timespec64))
    (g : globals) (log : list (Z * Z)) : option (globals * list (Z * Z)) :=
  match ticks with
  | [] => Some (g, log)
  | (db, now) :: ticks' =>
      '(g', f) ← thp_utilization_workfn_traced zones db now g;
      run zones ticks' g' (log_after f log)
  end.

(** The utilized counts of the logged huge pages that went to bucket [i]. *)
Definition in_bucket (i : Z) (log : list (Z * Z)) : list Z :=
  snd <$> filter (fun e => e.1 = i) log.

Definition Zsum (l : list Z) : Z := foldr Z.add 0 l.

(** The zero pages a list of utilized counts stands for. *)
Definition zero_pages_of (us : list Z) : Z :=
  Zsum ((fun u => HPAGE_PMD_NR - u) <$> us).

(** Every logged huge page was given the bucket of its utilized count, and
    that bucket is a valid one. *)
Definition log_ok (log : list (Z * Z)) : Prop :=
  Forall (fun e => e.1 = thp_utilization_bucket e.2 /\ 0 <= e.1) log.

(** The accumulator agrees with the log of the pass under way, as far as
    [int] counters can: each counter is the [int] of the exact total. *)
Definition accounts (bs : list thp_scan_info_bucket) (log : list (Z * Z))
  : Prop :=
  length bs = Z.to_nat THP_UTIL_BUCKET_NR /\
  forall (i : nat) b, bs !! i = Some b ->
    nr_thps b = to_int (Z.of_nat (length (in_bucket (Z.of_nat i) log))) /\
    nr_zero_pages b = to_int (zero_pages_of (in_bucket (Z.of_nat i) log)).

(** The scanner's zone pointer is NULL or points into the enumeration. *)
Definition zone_pointer_ok (zones : list zone) (g : globals) : Prop :=
  match scan_zone (thp_scan g) with
  | None => True
  | Some z => (z < length zones)%nat
  end.

(** ** Reference definitions *)

(** The [n] bytes of [mem] from offset [off] on are all zero. *)
Fixpoint all_zero_from (mem : page_bytes) (off : Z) (n : nat) : bool :=
  match n with
  | O => true
  | S n' => Byte.eqb (mem off) x00 && all_zero_from mem (off + 1) n'
  end.

(** The PAGE_SIZE bytes of a folio from byte [i] on are all zero. *)
Definition window_all_zero (f : folio) (i : Z) : bool :=
  all_zero_from (folio_memory f) i (Z.to_nat PAGE_SIZE).

(** The number of entirely-zero pages of a folio: of the [p] below
    [folio_nr_pages] whose page, the bytes from [p * PAGE_SIZE] on, is all
    zero. *)
Definition nr_all_zero_pages (f : folio) : Z :=
  Z.of_nat (length (filter (fun p => window_all_zero f (p * PAGE_SIZE) = true)
                           (seqZ 0 (folio_nr_pages f)))).

(** The number of [i] below [folio_nr_pages] such that the PAGE_SIZE bytes
    from byte [i] on are all zero. *)
Definition nr_zero_windows (f : folio) : Z :=
  Z.of_nat (length (filter (fun i => window_all_zero f i = true)
                           (seqZ 0 (folio_nr_pages f)))).


(** The zone's start frame rounded up to a multiple of [HPAGE_PMD_NR]. *)
Definition first_aligned_frame (zn : zone) : Z :=
  (zone_start_pfn zn + HPAGE_PMD_NR - 1) / HPAGE_PMD_NR * HPAGE_PMD_NR.

(** The scan iteration with the end-of-zone test and the frame lookup done
    on the cursor's full [unsigned long] value. *)
Definition thp_util_scan_iter_wide (db : page_frame_db) (pfn_end : Z)
    (g : globals) : globals * scan_outcome :=
  let current_pfn := pfn (thp_scan g) in
  let g := with_scan (fun s => set_pfn (to_ulong (pfn s + HPAGE_PMD_NR)) s) g in
  if pfn_end <=? current_pfn then (g, ScanReturn)
  else
    match pfn_to_online_page db current_pfn with
    | None => (g, ScanSkip)
    | Some pg =>
        let num_utilized_pages :=
          thp_number_utilized_pages (Some (page_folio db pg)) in
        let bucket := thp_utilization_bucket num_utilized_pages in
        if bucket <? 0 then (g, ScanSkip)
        else
          (with_scan
             (fun s => set_buckets
                         (alter (count_thp num_utilized_pages)
                                (Z.to_nat bucket) (buckets s)) s) g,
           ScanCount bucket num_utilized_pages)
    end.

Fixpoint thp_util_scan_loop_wide (db : page_frame_db) (pfn_end : Z) (n : nat)
    (g : globals) : globals * list scan_outcome :=
  match n with
  | O => (g, [])
  | S n' =>
      let '(g', o) := thp_util_scan_iter_wide db pfn_end g in
      match o with
      | ScanReturn => (g', [o])
      | _ =>
          let '(g'', tr) := thp_util_scan_loop_wide db pfn_end n' g' in
          (g'', o :: tr)
      end
  end.

(** A firing whose scan uses the comparison on the full cursor. *)
Definition thp_utilization_workfn_traced_wide (zones : list zone)
    (db : page_frame_db) (now : timespec64) (g : globals)
  : option (globals * firing) :=
  let g :=
    match scan_zone (thp_scan g) with
    | None => with_scan (set_scan_zone (Some first_online_zone)) g
    | Some _ => g
    end in
  z ← scan_zone (thp_scan g);
  zn ← zones !! z;
  let pfn_end := zone_end_pfn zn in
  if negb (managed_zone zn) || (pfn_end <=? pfn (thp_scan g))
  then
    '(g', b) ← thp_scan_next_zone_traced zones now g;
    Some (g', FiringNextZone b)
  else
    let '(g', tr) :=
      thp_util_scan_loop_wide db pfn_end THP_UTIL_SCAN_SIZE g in
    Some (g', FiringScan tr).

(** The reading of the scheduler contract under which a firing that stops
    before its quantum is used up has completed the pass. *)
Definition stops_early_only_on_pass_completion (zones : list zone)
    (db : page_frame_db) (now : timespec64) (g : globals) : Prop :=
  forall g' f,
    thp_utilization_workfn_traced zones db now g = Some (g', f) ->
    (firing_steps f < THP_UTIL_SCAN_SIZE)%nat ->
    f = FiringNextZone true.

End Scanner.

Arguments thp_util_scan_traced {P} db pfn_end g : simpl never.
Arguments thp_scan_next_zone_traced {P} zones now g : simpl never.
Arguments thp_utilization_workfn_traced {P} zones db now g : simpl never.
Arguments thp_utilization_workfn_traced_wide {P} zones db now g : simpl never.

(** ** Quantities of a scan and of a run *)

Section Quantities.
Context {P : platform}.

(** The huge-page steps from [cursor] that start below [pfn_end]. *)
Definition frames_left (cursor pfn_end : Z) : Z :=
  if pfn_end <=? cursor then 0
  else (pfn_end - cursor + HPAGE_PMD_NR - 1) / HPAGE_PMD_NR.

(** The log whose totals a firing leaves in the published snapshot: the
    log of the pass it completes, or the one published before. *)
Definition snapshot_after (f : firing) (log snap : list (Z * Z))
  : list (Z * Z) :=
  match f with
  | FiringNextZone true => log
  | _ => snap
  end.

(** [run], with the log of the last published pass kept beside the log of
    the pass under way. *)
Fixpoint run_published (zones : list zone)
    (ticks : list (page_frame_db * timespec64))
    (g : globals) (log snap : list (Z * Z))
  : option (globals * list (Z * Z) * list (Z * Z)) :=
  match ticks with
  | [] => Some (g, log, snap)
  | (db, now) :: ticks' =>
      '(g', f) ← thp_utilization_workfn_traced zones db now g;
      run_published zones ticks' g' (log_after f log) (snapshot_after f log snap)
  end.

End Quantities.

(** ** Concrete machines *)

(** A page of zero bytes, and a page whose first byte is set. *)
Definition zero_bytes : page_bytes := fun _ => x00.
Definition dirty_bytes : page_bytes :=
  fun off => if off =? 0 then x01 else x00.

(** Memory whose only non-zero byte is at offset 20480, the first byte of
    the sixth page of 4096 bytes. *)
Definition data_in_page_5 : page_bytes :=
  fun off => if off =? 20480 then x01 else x00.

(** Memory without any online page. *)
Definition no_pages : page_frame_db :=
  PageFrameDb (fun _ => None) (fun _ => Folio false false 0 zero_bytes).

(** Two populated zones of two huge pages each. *)
Definition two_zones : list zone :=
  [Zone 0 1024 true; Zone 1024 2048 true].

(** The scanner after its first firing on [two_zones] without pages: still
    in the first zone, the cursor three huge pages on. *)
Definition after_first_firing : globals :=
  Globals (@zero_scan_info)
          (ScanInfo (@zero_buckets) (Some 0%nat) (Timespec64 0 0)
                    (Timespec64 0 0) 1536).

(** The usual x86-64 zone layout of a 16 GiB machine: ZONE_DMA below
    16 MiB, ZONE_DMA32 below 4 GiB, ZONE_NORMAL above. *)
Definition x86_zones : list zone :=
  [Zone 1 4096 true; Zone 4096 1048576 true; Zone 1048576 4718592 true].

(** Memory whose only online page, at frame 0, heads [sample_thp]. *)
Definition one_thp (thp : folio) : page_frame_db :=
  PageFrameDb (fun p => if p =? 0 then Some 0%nat else None) (fun _ => thp).

(** The scanner at the end of ZONE_DMA. *)
Definition at_end_of_dma : globals :=
  Globals (@zero_scan_info)
          (ScanInfo (@zero_buckets) (Some 0%nat) (Timespec64 0 0)
                    (Timespec64 0 0) 4096).

(** The scanner at the end of the second of [two_zones], having counted
    one huge page with a single utilized subpage. *)
Definition at_end_of_pass : globals :=
  Globals (@zero_scan_info)
          (ScanInfo (Bucket 1 511 :: replicate 9 zero_bucket) (Some 1%nat)
                    (Timespec64 0 0) (Timespec64 0 0) 2048).

(** The state the firing at [at_end_of_pass] leaves, read at time 7.5 s. *)
Definition after_publication : globals :=
  Globals (ScanInfo (Bucket 1 511 :: replicate 9 zero_bucket) None
                    (Timespec64 7 500000000) (Timespec64 7 500000000) 0)
          (ScanInfo (@zero_buckets) (Some 0%nat) (Timespec64 0 0)
                    (Timespec64 0 0) 0).

(** A transparent huge page of 512 pages, all zero but for its first
    byte. *)
Definition sample_thp : folio :=
  Folio true true 512 dirty_bytes.


(** A large anonymous folio of four pages. *)
Definition small_folio : folio :=
  Folio true true 4 zero_bytes.

(** The state after four firings on [two_zones] with [sample_thp] at
    frame 0, read at time 1 s each: the pass is published, having counted
    the huge page once from each zone. *)
Definition after_two_zone_pass : globals :=
  Globals (ScanInfo (Bucket 2 1022 :: replicate 9 zero_bucket) None
                    (Timespec64 1 0) (Timespec64 1 0) 0)
          (ScanInfo (@zero_buckets) (Some 0%nat) (Timespec64 0 0)
                    (Timespec64 0 0) 0).

(** A transparent huge page whose only non-zero byte is the first byte of
    its sixth page. *)
Definition thp_data_in_page_5 : folio :=
  Folio true true 512 data_in_page_5.

(** The scanner three firings after boot on [two_zones] with [sample_thp]
    at frame 0: in the second zone, the pass not yet published. *)
Definition in_second_zone : globals :=
  Globals (@zero_scan_info)
          (ScanInfo (Bucket 2 1022 :: replicate 9 zero_bucket) (Some 1%nat)
                    (Timespec64 0 0) (Timespec64 0 0) 2560).


(** ** Facts about the machine integers *)

Lemma to_int_id z : INT_MIN <= z <= INT_MAX -> to_int z = z.
Proof.
  unfold to_int, INT_MIN, INT_MAX. intros Hz.
  rewrite Z.mod_small by lia. lia.
Qed.

Lemma to_int_range z : INT_MIN <= to_int z <= INT_MAX.
Proof.
  unfold to_int, INT_MIN, INT_MAX.
  pose proof (Z.mod_pos_bound (z + 2 ^ 31) (2 ^ 32)). lia.
Qed.

Lemma to_ulong_id z : 0 <= z < 2 ^ 64 -> to_ulong z = z.
Proof. intros Hz. unfold to_ulong. apply Z.mod_small. lia. Qed.

Lemma to_ulong_range z : 0 <= to_ulong z < 2 ^ 64.
Proof. unfold to_ulong. apply Z.mod_pos_bound. lia. Qed.

Section PlatformFacts.
Context {P : platform}.
Hypothesis Hok : platform_ok.

Lemma HPAGE_PMD_NR_pow2 : HPAGE_PMD_NR = 2 ^ HPAGE_PMD_ORDER.
Proof.
  destruct Hok as (H0 & H1 & H2 & H3).
  unfold HPAGE_PMD_NR, HPAGE_PMD_ORDER.
  rewrite Z.shiftl_1_l. apply to_int_id.
  unfold INT_MIN, INT_MAX. split.
  - pose proof (Z.pow_pos_nonneg 2 (HPAGE_PMD_SHIFT - PAGE_SHIFT)). lia.
  - assert (2 ^ (HPAGE_PMD_SHIFT - PAGE_SHIFT) <= 2 ^ 27)
      by (apply Z.pow_le_mono_r; lia).
    lia.
Qed.

Lemma HPAGE_PMD_NR_bounds : 1 <= HPAGE_PMD_NR <= 2 ^ 27.
Proof.
  rewrite HPAGE_PMD_NR_pow2.
  destruct Hok as (H0 & H1 & H2 & H3). unfold HPAGE_PMD_ORDER. split.
  - pose proof (Z.pow_pos_nonneg 2 (HPAGE_PMD_SHIFT - PAGE_SHIFT)). lia.
  - apply Z.pow_le_mono_r; lia.
Qed.

(** Inside the accepted range the bucket is the floor of the scaled count,
    clamped to the last bucket; no intermediate value leaves [int]. *)
Lemma thp_utilization_bucket_in_range u :
  0 <= u <= HPAGE_PMD_NR ->
  thp_utilization_bucket u =
    Z.min (u * THP_UTIL_BUCKET_NR / HPAGE_PMD_NR) (THP_UTIL_BUCKET_NR - 1).
Proof.
  intros Hu. pose proof HPAGE_PMD_NR_bounds as HN.
  unfold thp_utilization_bucket, THP_UTIL_BUCKET_NR.
  assert ((u <? 0) = false) as -> by lia.
  assert ((u >? HPAGE_PMD_NR) = false) as -> by lia.
  cbn [orb].
  rewrite (to_int_id (u * 10)) by (unfold INT_MIN, INT_MAX; nia).
  rewrite Z.quot_div_nonneg by lia.
  assert (0 <= u * 10 / HPAGE_PMD_NR <= 10).
  { split; [apply Z.div_pos; lia|].
    apply Z.div_le_upper_bound; nia. }
  rewrite to_int_id by (unfold INT_MIN, INT_MAX; lia).
  reflexivity.
Qed.

Lemma thp_utilization_bucket_out_of_range u :
  u < 0 \/ HPAGE_PMD_NR < u -> thp_utilization_bucket u = -1.
Proof.
  intros Hu. unfold thp_utilization_bucket.
  destruct Hu.
  - assert ((u <? 0) = true) as -> by lia. reflexivity.
  - assert ((u >? HPAGE_PMD_NR) = true) as -> by lia.
    rewrite orb_true_r. reflexivity.
Qed.

Lemma thp_utilization_bucket_valid u :
  0 <= u <= HPAGE_PMD_NR ->
  0 <= thp_utilization_bucket u <= THP_UTIL_BUCKET_NR - 1.
Proof.
  intros Hu. rewrite thp_utilization_bucket_in_range by done.
  pose proof HPAGE_PMD_NR_bounds as HN. unfold THP_UTIL_BUCKET_NR.
  assert (0 <= u * 10 / HPAGE_PMD_NR) by (apply Z.div_pos; lia).
  lia.
Qed.

(** A negative result is the invalid marker, and only out-of-range counts
    produce it. *)
Lemma thp_utilization_bucket_neg u :
  thp_utilization_bucket u < 0 <-> (u < 0 \/ HPAGE_PMD_NR < u).
Proof.
  split.
  - intros Hneg.
    destruct (decide (0 <= u <= HPAGE_PMD_NR)) as [Hin|Hout]; [|lia].
    pose proof (thp_utilization_bucket_valid u Hin). lia.
  - intros Hu. rewrite thp_utilization_bucket_out_of_range by done. lia.
Qed.

End PlatformFacts.

(** ** The bucketizer *)

(** C4: [thp_utilization_bucket u] is the invalid marker -1 exactly when
    [u < 0] or [u > HPAGE_PMD_NR]; otherwise it is
    [floor (u * THP_UTIL_BUCKET_NR / HPAGE_PMD_NR)] clamped to
    [THP_UTIL_BUCKET_NR - 1].  With 512 subpages and 10 buckets, 0 falls in
    bucket 0, 256 in bucket 5, and both 511 and 512 in bucket 9. *)
Theorem bucket_of_spec {P : platform} :
  platform_ok ->
  (forall u, thp_utilization_bucket u = -1 <-> (u < 0 \/ HPAGE_PMD_NR < u)) /\
  (forall u, 0 <= u <= HPAGE_PMD_NR ->
     thp_utilization_bucket u =
       Z.min (u * THP_UTIL_BUCKET_NR / HPAGE_PMD_NR) (THP_UTIL_BUCKET_NR - 1)) /\
  (@HPAGE_PMD_NR x86_64 = 512 /\ THP_UTIL_BUCKET_NR = 10 /\
   @thp_utilization_bucket x86_64 0 = 0 /\
   @thp_utilization_bucket x86_64 256 = 5 /\
   @thp_utilization_bucket x86_64 511 = 9 /\
   @thp_utilization_bucket x86_64 512 = 9).
Proof.
  intros Hok. split; [|split].
  - intros u. split.
    + intros Hm. apply (thp_utilization_bucket_neg Hok). lia.
    + apply thp_utilization_bucket_out_of_range.
  - apply (thp_utilization_bucket_in_range Hok).
  - repeat split; vm_compute; reflexivity.
Qed.

Lemma bucket_of_spec_witness :
  (forall u, @thp_utilization_bucket x86_64 u = -1 <->
             (u < 0 \/ @HPAGE_PMD_NR x86_64 < u)) /\
  (forall u, 0 <= u <= @HPAGE_PMD_NR x86_64 ->
     @thp_utilization_bucket x86_64 u =
       Z.min (u * THP_UTIL_BUCKET_NR / @HPAGE_PMD_NR x86_64)
             (THP_UTIL_BUCKET_NR - 1)).
Proof.
  pose proof (@bucket_of_spec x86_64) as H.
  destruct H as (Hinv & Hfloor & _).
  - unfold platform_ok; cbn; lia.
  - split; [exact Hinv|exact Hfloor].
Defined.

(** C8: on [0, HPAGE_PMD_NR] the bucketizer returns an index in
    [0, THP_UTIL_BUCKET_NR - 1] and is monotonically non-decreasing. *)
Theorem bucket_of_range_monotone {P : platform} (u v : Z) :
  platform_ok -> 0 <= u -> u <= v -> v <= HPAGE_PMD_NR ->
  0 <= thp_utilization_bucket u <= THP_UTIL_BUCKET_NR - 1 /\
  0 <= thp_utilization_bucket v <= THP_UTIL_BUCKET_NR - 1 /\
  thp_utilization_bucket u <= thp_utilization_bucket v.
Proof.
  intros Hok H0 Huv HvN.
  split; [apply (thp_utilization_bucket_valid Hok); lia|].
  split; [apply (thp_utilization_bucket_valid Hok); lia|].
  rewrite !(thp_utilization_bucket_in_range Hok) by lia.
  pose proof (HPAGE_PMD_NR_bounds Hok) as HN.
  apply Z.min_le_compat_r.
  apply Z.div_le_mono; [lia|]. unfold THP_UTIL_BUCKET_NR. lia.
Qed.

Lemma bucket_of_range_monotone_witness :
  0 <= @thp_utilization_bucket x86_64 100 <= THP_UTIL_BUCKET_NR - 1 /\
  0 <= @thp_utilization_bucket x86_64 400 <= THP_UTIL_BUCKET_NR - 1 /\
  @thp_utilization_bucket x86_64 100 <= @thp_utilization_bucket x86_64 400.
Proof.
  apply (@bucket_of_range_monotone x86_64 100 400).
  - unfold platform_ok; cbn; lia.
  - lia.
  - lia.
  - vm_compute; discriminate.
Defined.

(** ** The classifier *)

Lemma memchr_inv_from_None (start : page_bytes) c off n :
  memchr_inv_from start c off n = None <->
  forall k, (k < n)%nat -> start (off + Z.of_nat k) = c.
Proof.
  revert off. induction n as [|n IH]; intros off; cbn [memchr_inv_from].
  - split; [intros _ k Hk; lia | done].
  - destruct (Byte.eqb (start off) c) eqn:E.
    + apply Byte.byte_dec_bl in E. rewrite IH. split.
      * intros H [|k] Hk; [by rewrite Z.add_0_r|].
        replace (off + Z.of_nat (S k)) with (off + 1 + Z.of_nat k) by lia.
        apply H. lia.
      * intros H k Hk.
        replace (off + 1 + Z.of_nat k) with (off + Z.of_nat (S k)) by lia.
        apply H. lia.
    + split; [done|]. intros H. specialize (H 0%nat ltac:(lia)).
      rewrite Z.add_0_r in H. rewrite H in E.
      pose proof (Byte.byte_dec_lb (eq_refl c)) as Hc. congruence.
Qed.

(** The test succeeds exactly when the PAGE_SIZE bytes from the address on
    are all zero. *)
Lemma zero_page_spec {P : platform} (kaddr : page_bytes) :
  zero_page kaddr = true <->
  forall k, 0 <= k < PAGE_SIZE -> kaddr k = x00.
Proof.
  unfold zero_page, memchr_inv.
  pose proof (memchr_inv_from_None kaddr x00 0 (Z.to_nat PAGE_SIZE)) as Hn.
  destruct (memchr_inv_from kaddr x00 0 (Z.to_nat PAGE_SIZE)) eqn:E.
  - split; [done|]. intros H. exfalso.
    assert (Some z = None) as Habs; [|done].
    apply Hn. intros k Hk. rewrite Z.add_0_l. apply H. lia.
  - split; [|done]. intros _ k Hk.
    specialize (proj1 Hn eq_refl (Z.to_nat k) ltac:(lia)) as Hz.
    rewrite Z.add_0_l, Z2Nat.id in Hz by lia. done.
Qed.

Lemma all_zero_from_spec (mem : page_bytes) (off : Z) (n : nat) :
  all_zero_from mem off n = true <->
  forall k, (k < n)%nat -> mem (off + Z.of_nat k) = x00.
Proof.
  revert off. induction n as [|n IH]; intros off; cbn [all_zero_from].
  - split; [intros _ k Hk; lia|done].
  - rewrite andb_true_iff, IH. split.
    + intros [H0 H] [|k] Hk.
      * rewrite Z.add_0_r. by apply Byte.byte_dec_bl.
      * replace (off + Z.of_nat (S k)) with (off + 1 + Z.of_nat k) by lia.
        apply H. lia.
    + intros H. split.
      * apply Byte.byte_dec_lb. specialize (H 0%nat ltac:(lia)).
        by rewrite Z.add_0_r in H.
      * intros k Hk.
        replace (off + 1 + Z.of_nat k) with (off + Z.of_nat (S k)) by lia.
        apply H. lia.
Qed.

(** The bytes of the window at [i] are the bytes [i .. i + PAGE_SIZE - 1]
    of the folio. *)
Lemma window_all_zero_spec {P : platform} (f : folio) (i : Z) :
  window_all_zero f i = true <->
  forall k, 0 <= k < PAGE_SIZE -> folio_memory f (i + k) = x00.
Proof.
  unfold window_all_zero. rewrite all_zero_from_spec. split.
  - intros H k Hk. specialize (H (Z.to_nat k) ltac:(lia)).
    by rewrite Z2Nat.id in H by lia.
  - intros H k Hk. apply H. lia.
Qed.

(** On the address [kmap_local_folio] gives for [i] the test is the test of
    the bytes of the folio from byte [i] on. *)
Lemma zero_page_window {P : platform} (f : folio) (i : Z) :
  zero_page (kmap_local_folio f i) = window_all_zero f i.
Proof.
  apply Bool.eq_iff_eq_true.
  by rewrite zero_page_spec, window_all_zero_spec.
Qed.

Lemma foldl_count_page {P : platform} (f : folio) (l : list Z) (u : Z) :
  INT_MIN <= u - Z.of_nat (length l) -> u <= INT_MAX ->
  foldl (fun v i => count_page v (kmap_local_folio f i)) u l =
    u - Z.of_nat (length (filter (fun i => window_all_zero f i = true) l)).
Proof.
  revert u. induction l as [|i l IH]; intros u Hlo Hhi; cbn [foldl].
  - cbn. lia.
  - cbn [length] in Hlo. rewrite filter_cons. unfold count_page at 2.
    rewrite zero_page_window.
    destruct (window_all_zero f i) eqn:E.
    + rewrite decide_True by done.
      rewrite to_int_id by (unfold INT_MIN, INT_MAX in *; lia).
      rewrite IH by lia. cbn [length]. lia.
    + rewrite decide_False by done. rewrite IH by lia. done.
Qed.

Lemma nr_zero_windows_bounds {P : platform} (f : folio) :
  0 <= nr_zero_windows f <= Z.max 0 (folio_nr_pages f).
Proof.
  unfold nr_zero_windows.
  pose proof (length_filter (fun i => window_all_zero f i = true)
                            (seqZ 0 (folio_nr_pages f))) as Hle.
  rewrite length_seqZ in Hle. lia.
Qed.

(** What the classifier computes on a present, anonymous, large folio whose
    page count keeps the counter inside [int]: one is taken off
    HPAGE_PMD_NR for every [i] below [folio_nr_pages] such that the
    PAGE_SIZE bytes of the folio from byte [i] on are all zero. *)
Lemma thp_number_utilized_pages_eligible {P : platform} (f : folio) :
  platform_ok ->
  folio_test_anon f = true -> folio_test_large f = true ->
  folio_nr_pages f <= 2 ^ 31 ->
  thp_number_utilized_pages (Some f) = HPAGE_PMD_NR - nr_zero_windows f.
Proof.
  intros Hok Ha Hl Hn. pose proof (HPAGE_PMD_NR_bounds Hok).
  unfold thp_number_utilized_pages. rewrite Ha, Hl. cbn [negb orb].
  rewrite foldl_count_page; [done| |unfold INT_MAX; lia].
  rewrite length_seqZ. unfold INT_MIN. lia.
Qed.

Lemma thp_number_utilized_pages_ineligible {P : platform} (fo : option folio) :
  ~ eligible fo -> thp_number_utilized_pages fo = -1.
Proof.
  intros Hne. destruct fo as [f|]; [|done]. cbn.
  destruct (folio_test_anon f) eqn:Ha; [|done].
  destruct (folio_test_large f) eqn:Hl; [|done].
  exfalso. apply Hne. by exists f.
Qed.

(** On a unit of HPAGE_PMD_NR pages the result is -1 exactly for an absent,
    non-anonymous or small folio, and within [0, HPAGE_PMD_NR] otherwise. *)
Lemma thp_number_utilized_pages_unit {P : platform} (fo : option folio) :
  platform_ok ->
  (forall f, fo = Some f -> folio_nr_pages f = HPAGE_PMD_NR) ->
  (thp_number_utilized_pages fo = -1 <-> ~ eligible fo) /\
  (eligible fo -> 0 <= thp_number_utilized_pages fo <= HPAGE_PMD_NR).
Proof.
  intros Hok Hunit. pose proof (HPAGE_PMD_NR_bounds Hok) as HN.
  assert (eligible fo -> 0 <= thp_number_utilized_pages fo <= HPAGE_PMD_NR)
    as Hval.
  { intros (f & -> & Ha & Hl). specialize (Hunit f eq_refl).
    rewrite (thp_number_utilized_pages_eligible f Hok Ha Hl) by lia.
    pose proof (nr_zero_windows_bounds f). lia. }
  split; [|exact Hval]. split.
  - intros Hm He. apply Hval in He. lia.
  - apply thp_number_utilized_pages_ineligible.
Qed.

(** C3, on a huge page of 512 pages whose only non-zero byte is the first
    byte of its sixth page: the folio is anonymous and large, 511 of its
    pages are entirely zero, so that the classifier of the claim returns
    1; the code returns 0.  [kmap_local_folio] is given the page index [i]
    where it takes a byte offset, so the 512 tests are of the bytes
    [i .. i + PAGE_SIZE - 1], all within the first two pages. *)
Theorem classifier_tests_byte_windows :
  eligible (Some thp_data_in_page_5) /\
  folio_nr_pages thp_data_in_page_5 = @HPAGE_PMD_NR x86_64 /\
  @HPAGE_PMD_NR x86_64 = 512 /\
  @nr_all_zero_pages x86_64 thp_data_in_page_5 = 511 /\
  @nr_zero_windows x86_64 thp_data_in_page_5 = 512 /\
  @thp_number_utilized_pages x86_64 (Some thp_data_in_page_5) = 0.
Proof.
  split; [exists thp_data_in_page_5; split; [|split]; reflexivity|].
  split; [reflexivity|]. split; [reflexivity|].
  split; [|split]; vm_compute; reflexivity.
Qed.

(** The scenario of a unit that is all zero but for its first byte: one
    utilized page, bucket 0, 511 zero pages. *)
Example sample_thp_classified :
  @thp_number_utilized_pages x86_64 (Some sample_thp) = 1 /\
  @thp_utilization_bucket x86_64 1 = 0 /\
  @count_thp x86_64 1 zero_bucket = Bucket 1 511.
Proof. vm_compute. done. Qed.

(** ** One iteration of the scan loop *)

Section ScanStep.
Context {P : platform}.
Implicit Types (db : page_frame_db) (g : globals).

Lemma thp_util_scan_iter_pfn db pfn_end g :
  pfn (thp_scan (thp_util_scan_iter db pfn_end g).1) =
    to_ulong (pfn (thp_scan g) + HPAGE_PMD_NR).
Proof.
  unfold thp_util_scan_iter.
  repeat (case_match; cbn); reflexivity.
Qed.

Lemma thp_util_scan_iter_frame db pfn_end g :
  thp_scan_debugfs (thp_util_scan_iter db pfn_end g).1 = thp_scan_debugfs g /\
  scan_zone (thp_scan (thp_util_scan_iter db pfn_end g).1) = scan_zone (thp_scan g).
Proof.
  unfold thp_util_scan_iter.
  repeat (case_match; cbn); done.
Qed.

(** Only a counting iteration touches the buckets. *)
Lemma thp_util_scan_iter_buckets db pfn_end g :
  match (thp_util_scan_iter db pfn_end g).2 with
  | ScanCount bucket u =>
      buckets (thp_scan (thp_util_scan_iter db pfn_end g).1) =
        alter (count_thp u) (Z.to_nat bucket) (buckets (thp_scan g))
  | _ =>
      buckets (thp_scan (thp_util_scan_iter db pfn_end g).1) =
        buckets (thp_scan g)
  end.
Proof.
  unfold thp_util_scan_iter.
  destruct (zone_end_reached (current_pfn_of g) pfn_end); cbn; [done|].
  destruct (pfn_to_online_page db (to_ulong (current_pfn_of g))); cbn; [|done].
  destruct (thp_utilization_bucket _ <? 0); cbn; done.
Qed.

(** When an iteration counts: the zone end is not reached, the frame has an
    online page, and the bucketizer accepts the classifier's result. *)
Lemma thp_util_scan_iter_count db pfn_end g bucket u :
  (thp_util_scan_iter db pfn_end g).2 = ScanCount bucket u <->
  zone_end_reached (current_pfn_of g) pfn_end = false /\
  exists pg,
    pfn_to_online_page db (to_ulong (current_pfn_of g)) = Some pg /\
    u = thp_number_utilized_pages (Some (page_folio db pg)) /\
    bucket = thp_utilization_bucket u /\ 0 <= bucket.
Proof.
  unfold thp_util_scan_iter.
  destruct (zone_end_reached (current_pfn_of g) pfn_end) eqn:Hend; cbn.
  { split; [done|]. by intros [? _]. }
  destruct (pfn_to_online_page db (to_ulong (current_pfn_of g))) as [pg|] eqn:Hpg;
    cbn.
  2: { split; [done|]. by intros [_ (pg & ? & _)]. }
  destruct (thp_utilization_bucket _ <? 0) eqn:Hb; cbn.
  - split; [done|]. intros [_ (pg' & [= <-] & -> & -> & Hge)]. lia.
  - split.
    + intros [= <- <-]. split; [done|]. exists pg. repeat split; try done; lia.
    + intros [_ (pg' & [= <-] & -> & -> & Hge)]. done.
Qed.

Lemma thp_util_scan_iter_return db pfn_end g :
  (thp_util_scan_iter db pfn_end g).2 = ScanReturn <->
  zone_end_reached (current_pfn_of g) pfn_end = true.
Proof.
  unfold thp_util_scan_iter.
  destruct (zone_end_reached (current_pfn_of g) pfn_end); cbn; [done|].
  split; [|done]. repeat (case_match; cbn); done.
Qed.

(** A cursor below 2^31 is stored into [current_pfn] unchanged. *)
Lemma current_pfn_small g :
  0 <= pfn (thp_scan g) < 2 ^ 31 ->
  current_pfn_of g = pfn (thp_scan g) /\
  to_ulong (current_pfn_of g) = pfn (thp_scan g).
Proof.
  intros Hp. unfold current_pfn_of.
  rewrite to_int_id by (unfold INT_MIN, INT_MAX; lia).
  split; [done|]. apply to_ulong_id. lia.
Qed.

(** A cursor in [2^31, 2^32) is stored as a negative [int], which the
    comparison sees as a frame number at the top of the address space. *)
Lemma current_pfn_negative g :
  2 ^ 31 <= pfn (thp_scan g) < 2 ^ 32 ->
  to_ulong (current_pfn_of g) = pfn (thp_scan g) + (2 ^ 64 - 2 ^ 32).
Proof.
  intros Hp. unfold current_pfn_of, to_int, to_ulong.
  replace (pfn (thp_scan g) + 2 ^ 31)
    with ((pfn (thp_scan g) - 2 ^ 31) + 1 * 2 ^ 32) by lia.
  rewrite Z.mod_add by lia.
  rewrite (Z.mod_small (pfn (thp_scan g) - 2 ^ 31)) by lia.
  replace (pfn (thp_scan g) - 2 ^ 31 - 2 ^ 31)
    with ((pfn (thp_scan g) + (2 ^ 64 - 2 ^ 32)) + (-1) * 2 ^ 64) by lia.
  rewrite Z.mod_add by lia.
  apply Z.mod_small. lia.
Qed.

End ScanStep.




(** [thp_util_scan] is the loop with its full count of iterations. *)
Lemma thp_util_scan_traced_eq {P : platform}
    (db : page_frame_db) (pfn_end : Z) (g : globals) :
  thp_util_scan_traced db pfn_end g =
    thp_util_scan_loop db pfn_end THP_UTIL_SCAN_SIZE g.
Proof. reflexivity. Qed.

(** ** The cursor stored into an [int] *)

Lemma to_int_period z : to_int (z + 2 ^ 32) = to_int z.
Proof.
  unfold to_int.
  replace (z + 2 ^ 32 + 2 ^ 31) with (z + 2 ^ 31 + 1 * 2 ^ 32) by lia.
  by rewrite Z.mod_add by lia.
Qed.

Section NarrowCursor.
Context {P : platform}.
Hypothesis Hok : platform_ok.
Implicit Types (db : page_frame_db) (g : globals).

Lemma zone_end_reached_low g pfn_end :
  pfn_end <= 2 ^ 31 -> 0 <= pfn (thp_scan g) < 2 ^ 32 ->
  zone_end_reached (current_pfn_of g) pfn_end =
    (pfn_end <=? pfn (thp_scan g)).
Proof.
  intros He Hp. unfold zone_end_reached.
  destruct (decide (pfn (thp_scan g) < 2 ^ 31)) as [Hlo|Hhi].
  - by destruct (current_pfn_small g ltac:(lia)) as [_ ->].
  - rewrite (current_pfn_negative g) by lia.
    transitivity true; [|symmetry]; apply Z.leb_le; lia.
Qed.

Lemma thp_util_scan_iter_wide_eq db pfn_end g :
  pfn_end <= 2 ^ 31 -> 0 <= pfn (thp_scan g) < 2 ^ 32 ->
  thp_util_scan_iter db pfn_end g = thp_util_scan_iter_wide db pfn_end g.
Proof.
  intros He Hp. unfold thp_util_scan_iter, thp_util_scan_iter_wide.
  rewrite zone_end_reached_low by done.
  destruct (pfn_end <=? pfn (thp_scan g)) eqn:Hend; [done|].
  apply Z.leb_gt in Hend.
  by destruct (current_pfn_small g ltac:(lia)) as [_ ->].
Qed.

(** An iteration that goes on leaves the cursor below 2^32. *)
Lemma thp_util_scan_iter_wide_next db pfn_end g :
  pfn_end <= 2 ^ 31 -> 0 <= pfn (thp_scan g) < 2 ^ 32 ->
  (thp_util_scan_iter_wide db pfn_end g).2 <> ScanReturn ->
  0 <= pfn (thp_scan (thp_util_scan_iter_wide db pfn_end g).1) < 2 ^ 32.
Proof.
  intros He Hp Hgo. pose proof (HPAGE_PMD_NR_bounds Hok) as HN.
  rewrite <- thp_util_scan_iter_wide_eq in * by done.
  rewrite thp_util_scan_iter_pfn.
  assert (pfn (thp_scan g) < pfn_end).
  { destruct (decide (pfn (thp_scan g) < pfn_end)); [done|].
    exfalso. apply Hgo. apply thp_util_scan_iter_return.
    rewrite zone_end_reached_low by done. apply Z.leb_le. lia. }
  rewrite to_ulong_id by lia. lia.
Qed.

Lemma thp_util_scan_loop_wide_eq db pfn_end n g :
  pfn_end <= 2 ^ 31 -> 0 <= pfn (thp_scan g) < 2 ^ 32 ->
  thp_util_scan_loop db pfn_end n g = thp_util_scan_loop_wide db pfn_end n g.
Proof.
  intros He. revert g. induction n as [|n IH]; intros g Hp; [done|].
  cbn [thp_util_scan_loop thp_util_scan_loop_wide].
  rewrite thp_util_scan_iter_wide_eq by done.
  pose proof (thp_util_scan_iter_wide_next db pfn_end g He Hp) as Hnext.
  destruct (thp_util_scan_iter_wide db pfn_end g) as [g' o]. cbn in Hnext.
  destruct o; [done| |]; by rewrite IH by (apply Hnext; done).
Qed.

End NarrowCursor.

(** In a zone that ends at or below frame 2^31 a firing is the firing that
    compares the full cursor: the scan is entered with the cursor below the
    zone's end, and stays below 2^32 until it returns. *)
Lemma thp_utilization_workfn_traced_wide_eq {P : platform}
    (zones : list zone) (db : page_frame_db) (now : timespec64)
    (g : globals) (zn : zone) :
  platform_ok ->
  zones !! default first_online_zone (scan_zone (thp_scan g)) = Some zn ->
  zone_end_pfn zn <= 2 ^ 31 -> 0 <= pfn (thp_scan g) ->
  thp_utilization_workfn_traced zones db now g =
    thp_utilization_workfn_traced_wide zones db now g.
Proof.
  intros Hok Hzn He Hp.
  unfold thp_utilization_workfn_traced, thp_utilization_workfn_traced_wide.
  set (g1 := match scan_zone (thp_scan g) with
             | Some _ => g
             | None => with_scan (set_scan_zone (Some first_online_zone)) g
             end).
  assert (scan_zone (thp_scan g1) =
          Some (default first_online_zone (scan_zone (thp_scan g)))) as Hz
    by (subst g1; by destruct (scan_zone (thp_scan g)) eqn:E).
  assert (pfn (thp_scan g1) = pfn (thp_scan g)) as Hp1
    by (subst g1; by destruct (scan_zone (thp_scan g))).
  rewrite Hz. cbn [mbind option_bind]. rewrite Hzn. cbn [mbind option_bind].
  destruct (zone_end_pfn zn <=? pfn (thp_scan g1)) eqn:Hend.
  { by rewrite orb_true_r. }
  rewrite orb_false_r. destruct (negb (managed_zone zn)); [done|].
  apply Z.leb_gt in Hend.
  rewrite thp_util_scan_traced_eq.
  by rewrite (thp_util_scan_loop_wide_eq Hok) by lia.
Qed.

(** C10: a scan step stores the cursor into the [int] [current_pfn] and
    makes the end-of-zone test on that copy.  In a zone whose frames are all
    below 2^31 a firing behaves as the one that compares the full cursor;
    there, for every cursor a scan meets (below 2^32), the step's test is
    the comparison on the full cursor.  Frames from 2^31 on are compared
    after the truncation: numbers in [2^31, 2^32) as frames at the top of
    the address space, and numbers 2^32 apart as the same frame. *)
Theorem end_of_zone_test_on_int {P : platform}
    (zones : list zone) (db : page_frame_db) (now : timespec64)
    (g : globals) (zn : zone) :
  platform_ok ->
  zones !! default first_online_zone (scan_zone (thp_scan g)) = Some zn ->
  zone_end_pfn zn <= 2 ^ 31 -> 0 <= pfn (thp_scan g) ->
  (forall e g1,
     (thp_util_scan_iter db e g1).2 = ScanReturn <->
     e <= to_ulong (to_int (pfn (thp_scan g1)))) /\
  thp_utilization_workfn_traced zones db now g =
    thp_utilization_workfn_traced_wide zones db now g /\
  (forall g1, 0 <= pfn (thp_scan g1) < 2 ^ 32 ->
     ((thp_util_scan_iter db (zone_end_pfn zn) g1).2 = ScanReturn <->
      zone_end_pfn zn <= pfn (thp_scan g1)) /\
     thp_util_scan_iter db (zone_end_pfn zn) g1 =
       thp_util_scan_iter_wide db (zone_end_pfn zn) g1 /\
     forall n,
       thp_util_scan_loop db (zone_end_pfn zn) n g1 =
         thp_util_scan_loop_wide db (zone_end_pfn zn) n g1) /\
  (forall e g1, 2 ^ 31 <= pfn (thp_scan g1) < 2 ^ 32 ->
     ((thp_util_scan_iter db e g1).2 = ScanReturn <->
      e <= pfn (thp_scan g1) + (2 ^ 64 - 2 ^ 32))) /\
  (forall p e, zone_end_reached (to_int (p + 2 ^ 32)) e =
               zone_end_reached (to_int p) e).
Proof.
  intros Hok Hzn He Hp.
  assert (forall e g1, (thp_util_scan_iter db e g1).2 = ScanReturn <->
            e <= to_ulong (to_int (pfn (thp_scan g1)))) as Htest.
  { intros e g1. rewrite thp_util_scan_iter_return.
    unfold zone_end_reached, current_pfn_of. apply Z.leb_le. }
  split; [exact Htest|].
  split; [by apply (thp_utilization_workfn_traced_wide_eq zones db now g zn)|].
  split.
  { intros g1 Hg1. split; [|split].
    - rewrite thp_util_scan_iter_return, zone_end_reached_low by done.
      apply Z.leb_le.
    - by apply thp_util_scan_iter_wide_eq.
    - intros n. by apply thp_util_scan_loop_wide_eq. }
  split.
  - intros e g1 Hhi. rewrite Htest.
    pose proof (current_pfn_negative g1 Hhi) as Hneg.
    unfold current_pfn_of in Hneg. by rewrite Hneg.
  - intros p e. by rewrite to_int_period.
Qed.

Lemma end_of_zone_test_on_int_witness :
  @thp_utilization_workfn_traced x86_64 two_zones no_pages (Timespec64 1 0)
    init_globals =
  @thp_utilization_workfn_traced_wide x86_64 two_zones no_pages
    (Timespec64 1 0) init_globals.
Proof.
  pose proof (@end_of_zone_test_on_int x86_64 two_zones no_pages
                (Timespec64 1 0) init_globals (Zone 0 1024 true)) as H.
  destruct H as (_ & Heq & _).
  - unfold platform_ok; cbn; lia.
  - reflexivity.
  - cbn; lia.
  - cbn; lia.
  - exact Heq.
Defined.

(** Where the two tests part: with the cursor at frame 2^31 in a zone that
    goes on to 2^31 + 1024, the step leaves the loop although the cursor is
    short of the zone's end. *)
Example end_of_zone_test_truncated :
  let g := with_scan (set_pfn (2 ^ 31)) init_globals in
  (@thp_util_scan_iter x86_64 no_pages (2 ^ 31 + 1024) g).2 = ScanReturn /\
  (@thp_util_scan_iter_wide x86_64 no_pages (2 ^ 31 + 1024) g).2 = ScanSkip.
Proof. vm_compute. done. Qed.

(** ** The scan loop *)

Lemma to_ulong_add_l a b : to_ulong (to_ulong a + b) = to_ulong (a + b).
Proof. unfold to_ulong. by rewrite Zplus_mod_idemp_l. Qed.

Lemma to_int_to_ulong z : to_int (to_ulong z) = to_int z.
Proof.
  unfold to_int, to_ulong.
  rewrite (Z.div_mod z (2 ^ 64)) at 2 by lia.
  replace (2 ^ 64 * (z / 2 ^ 64) + z mod 2 ^ 64 + 2 ^ 31)
    with (z mod 2 ^ 64 + 2 ^ 31 + (2 ^ 32 * (z / 2 ^ 64)) * 2 ^ 32) by lia.
  by rewrite Z.mod_add by lia.
Qed.

Lemma to_int_add_ulong a b : to_int (to_ulong a + b) = to_int (a + b).
Proof.
  rewrite <- (to_int_to_ulong (to_ulong a + b)), to_ulong_add_l.
  apply to_int_to_ulong.
Qed.

Section ScanLoop.
Context {P : platform}.
Implicit Types (db : page_frame_db) (g : globals) (tr : list scan_outcome).

Lemma thp_util_scan_loop_length db pfn_end n g :
  (length (thp_util_scan_loop db pfn_end n g).2 <= n)%nat.
Proof.
  revert g. induction n as [|n IH]; intros g; cbn; [lia|].
  destruct (thp_util_scan_iter db pfn_end g) as [g' o].
  specialize (IH g').
  destruct (thp_util_scan_loop db pfn_end n g') as [g'' tr].
  destruct o; cbn in *; lia.
Qed.

(** The loop stays in its zone and leaves the published snapshot alone. *)
Lemma thp_util_scan_loop_frame db pfn_end n g :
  thp_scan_debugfs (thp_util_scan_loop db pfn_end n g).1 = thp_scan_debugfs g /\
  scan_zone (thp_scan (thp_util_scan_loop db pfn_end n g).1) =
    scan_zone (thp_scan g).
Proof.
  revert g. induction n as [|n IH]; intros g; cbn; [done|].
  pose proof (thp_util_scan_iter_frame db pfn_end g) as Hf.
  destruct (thp_util_scan_iter db pfn_end g) as [g' o]. cbn in Hf.
  specialize (IH g').
  destruct (thp_util_scan_loop db pfn_end n g') as [g'' tr]. cbn in IH.
  destruct Hf as [Hf1 Hf2], IH as [IH1 IH2].
  destruct o; cbn; split; congruence.
Qed.

(** Every iteration, the returning one included, moves the cursor. *)
Lemma thp_util_scan_loop_pfn db pfn_end n g :
  n <> 0%nat ->
  pfn (thp_scan (thp_util_scan_loop db pfn_end n g).1) =
    to_ulong (pfn (thp_scan g) +
              Z.of_nat (length (thp_util_scan_loop db pfn_end n g).2) *
              HPAGE_PMD_NR).
Proof.
  revert g. induction n as [|n IH]; intros g Hn; [done|].
  cbn [thp_util_scan_loop].
  pose proof (thp_util_scan_iter_pfn db pfn_end g) as Hp.
  destruct (thp_util_scan_iter db pfn_end g) as [g' o]. cbn in Hp.
  specialize (IH g').
  assert (o <> ScanReturn ->
          pfn (thp_scan (thp_util_scan_loop db pfn_end n g').1) =
            to_ulong (pfn (thp_scan g) +
              Z.of_nat (S (length (thp_util_scan_loop db pfn_end n g').2)) *
              HPAGE_PMD_NR)) as Hgo.
  { intros _. destruct n as [|n].
    - cbn [thp_util_scan_loop fst snd length]. rewrite Hp. f_equal. lia.
    - rewrite IH, Hp, to_ulong_add_l by done. f_equal. lia. }
  destruct (thp_util_scan_loop db pfn_end n g') as [g'' tr].
  cbn [fst snd] in Hgo.
  destruct o; cbn [fst snd length].
  - rewrite Hp. f_equal. lia.
  - by apply Hgo.
  - by apply Hgo.
Qed.

(** The loop ends before its last iteration only by the [return] at the end
    of the zone. *)
Lemma thp_util_scan_loop_early db pfn_end n g :
  (length (thp_util_scan_loop db pfn_end n g).2 < n)%nat ->
  last (thp_util_scan_loop db pfn_end n g).2 = Some ScanReturn.
Proof.
  revert g. induction n as [|n IH]; intros g; cbn [thp_util_scan_loop].
  - cbn. lia.
  - destruct (thp_util_scan_iter db pfn_end g) as [g' o].
    specialize (IH g').
    destruct (thp_util_scan_loop db pfn_end n g') as [g'' tr].
    cbn [fst snd] in IH.
    destruct o; cbn [fst snd length]; [done| |]; intros Hlt;
      (rewrite last_cons, IH by lia; done).
Qed.

(** The [i]-th iteration examines the frame [i] huge pages past the cursor
    the loop started from; a [return] there means that the frame, as stored
    in [current_pfn], is at or past the end of the zone. *)
Lemma thp_util_scan_loop_return db pfn_end n g i :
  (thp_util_scan_loop db pfn_end n g).2 !! i = Some ScanReturn ->
  zone_end_reached
    (to_int (pfn (thp_scan g) + Z.of_nat i * HPAGE_PMD_NR)) pfn_end = true.
Proof.
  revert g i. induction n as [|n IH]; intros g i; cbn [thp_util_scan_loop].
  - done.
  - pose proof (thp_util_scan_iter_pfn db pfn_end g) as Hp.
    pose proof (thp_util_scan_iter_return db pfn_end g) as Hr.
    destruct (thp_util_scan_iter db pfn_end g) as [g' o]. cbn in Hp, Hr.
    specialize (IH g').
    destruct (thp_util_scan_loop db pfn_end n g') as [g'' tr].
    cbn [fst snd] in IH.
    assert (forall j, tr !! j = Some ScanReturn ->
              zone_end_reached
                (to_int (pfn (thp_scan g) + Z.of_nat (S j) * HPAGE_PMD_NR))
                pfn_end = true) as Hrest.
    { intros j Hj. specialize (IH j Hj).
      rewrite Hp, to_int_add_ulong in IH.
      replace (pfn (thp_scan g) + Z.of_nat (S j) * HPAGE_PMD_NR)
        with (pfn (thp_scan g) + HPAGE_PMD_NR + Z.of_nat j * HPAGE_PMD_NR)
        by lia.
      done. }
    assert (o = ScanReturn ->
            zone_end_reached
              (to_int (pfn (thp_scan g) + Z.of_nat 0 * HPAGE_PMD_NR))
              pfn_end = true) as Hhead.
    { intros Ho. apply Hr in Ho. unfold current_pfn_of in Ho.
      by rewrite Nat2Z.inj_0, Z.mul_0_l, Z.add_0_r. }
    destruct o; cbn [fst snd]; destruct i as [|i]; cbn;
      try done; try (intros [= ?]; done); try (by intros ?; apply Hhead);
      try apply Hrest.
Qed.

(** The [i]-th iteration returns exactly when its end-of-zone test, made on
    the [int] copy of the cursor of that iteration, succeeds; an iteration
    that returns is the last one. *)
Lemma thp_util_scan_loop_outcome db pfn_end n g i o :
  (thp_util_scan_loop db pfn_end n g).2 !! i = Some o ->
  (o = ScanReturn <->
   zone_end_reached
     (to_int (pfn (thp_scan g) + Z.of_nat i * HPAGE_PMD_NR)) pfn_end = true) /\
  (o = ScanReturn ->
   length (thp_util_scan_loop db pfn_end n g).2 = S i).
Proof.
  revert g i. induction n as [|n IH]; intros g i; cbn [thp_util_scan_loop].
  - done.
  - pose proof (thp_util_scan_iter_pfn db pfn_end g) as Hp.
    pose proof (thp_util_scan_iter_return db pfn_end g) as Hr.
    destruct (thp_util_scan_iter db pfn_end g) as [g' o0]. cbn in Hp, Hr.
    unfold current_pfn_of in Hr.
    specialize (IH g').
    destruct (thp_util_scan_loop db pfn_end n g') as [g'' tr].
    cbn [fst snd] in IH.
    assert (forall j, tr !! j = Some o ->
              (o = ScanReturn <->
               zone_end_reached
                 (to_int (pfn (thp_scan g) + Z.of_nat (S j) * HPAGE_PMD_NR))
                 pfn_end = true) /\
              (o = ScanReturn -> length (o0 :: tr) = S (S j))) as Hrest.
    { intros j Hj. destruct (IH j Hj) as [IH1 IH2].
      rewrite Hp, to_int_add_ulong in IH1.
      replace (pfn (thp_scan g) + Z.of_nat (S j) * HPAGE_PMD_NR)
        with (pfn (thp_scan g) + HPAGE_PMD_NR + Z.of_nat j * HPAGE_PMD_NR)
        by lia.
      split; [exact IH1|]. intros Ho. cbn [length]. by rewrite IH2. }
    assert (i = 0%nat -> o = o0 ->
              (o = ScanReturn <->
               zone_end_reached
                 (to_int (pfn (thp_scan g) + Z.of_nat i * HPAGE_PMD_NR))
                 pfn_end = true)) as Hhead.
    { intros -> ->.
      by rewrite Nat2Z.inj_0, Z.mul_0_l, Z.add_0_r. }
    destruct o0; cbn [fst snd]; destruct i as [|i]; cbn [lookup list_lookup];
      try done; try apply Hrest.
    + intros [= <-]. split; [by apply Hhead|done].
    + intros [= <-]. split; [by apply Hhead|done].
    + intros [= <-]. split; [by apply Hhead|done].
Qed.

End ScanLoop.

(** In a zone that ends at or below frame 2^31 the [i]-th iteration returns
    exactly when the cursor of that iteration is at or past the zone's
    end. *)
Lemma thp_util_scan_loop_outcome_low {P : platform}
    (db : page_frame_db) (pfn_end : Z) (n : nat) (g : globals) (i : nat) o :
  platform_ok ->
  pfn_end <= 2 ^ 31 -> 0 <= pfn (thp_scan g) < 2 ^ 32 ->
  (thp_util_scan_loop db pfn_end n g).2 !! i = Some o ->
  (o = ScanReturn <->
   pfn_end <= pfn (thp_scan g) + Z.of_nat i * HPAGE_PMD_NR).
Proof.
  intros Hok He. pose proof (HPAGE_PMD_NR_bounds Hok) as HN.
  revert g i. induction n as [|n IH]; intros g i Hg;
    cbn [thp_util_scan_loop]; [done|].
  pose proof (thp_util_scan_iter_pfn db pfn_end g) as Hp.
  pose proof (thp_util_scan_iter_return db pfn_end g) as Hr.
  rewrite (zone_end_reached_low g pfn_end He Hg), Z.leb_le in Hr.
  destruct (thp_util_scan_iter db pfn_end g) as [g' o0]. cbn in Hp, Hr.
  specialize (IH g').
  destruct (thp_util_scan_loop db pfn_end n g') as [g'' tr].
  cbn [fst snd] in IH.
  assert (o0 <> ScanReturn -> forall j, tr !! j = Some o ->
            (o = ScanReturn <->
             pfn_end <= pfn (thp_scan g) + Z.of_nat (S j) * HPAGE_PMD_NR))
    as Hrest.
  { intros Hne j Hj.
    assert (pfn (thp_scan g) < pfn_end) as Hlt.
    { destruct (decide (pfn_end <= pfn (thp_scan g))) as [Hge|]; [|lia].
      by apply Hr in Hge. }
    assert (pfn (thp_scan g') = pfn (thp_scan g) + HPAGE_PMD_NR) as Hp'
      by (rewrite Hp; apply to_ulong_id; lia).
    rewrite (IH j ltac:(lia) Hj), Hp'. lia. }
  assert (o = o0 ->
            (o = ScanReturn <->
             pfn_end <= pfn (thp_scan g) + Z.of_nat 0 * HPAGE_PMD_NR))
    as Hhead.
  { intros ->. by rewrite Nat2Z.inj_0, Z.mul_0_l, Z.add_0_r. }
  destruct o0; cbn [fst snd]; destruct i as [|i]; cbn [lookup list_lookup];
    try done; try (by apply Hrest); intros [= <-]; by apply Hhead.
Qed.

(** ** Moving to the next zone *)

Section NextZone.
Context {P : platform}.
Implicit Types (zones : list zone) (g : globals).

(** The cursor value [thp_scan_next_zone] computes for a zone. *)
Lemma thp_scan_next_zone_traced_inv zones now g g' published :
  thp_scan_next_zone_traced zones now g = Some (g', published) ->
  exists z zi zn,
    scan_zone (thp_scan g) = Some z /\ is_Some (zones !! z) /\
    zi = default first_online_zone (next_zone zones z) /\
    zones !! zi = Some zn /\
    published = bool_decide (next_zone zones z = None) /\
    scan_zone (thp_scan g') = Some zi /\
    pfn (thp_scan g') =
      Z.land (to_ulong (zone_start_pfn zn + HPAGE_PMD_NR - 1))
             (to_ulong (Z.lnot (to_ulong (HPAGE_PMD_SIZE - 1)))) /\
    if published
    then
      thp_scan_debugfs g' =
        ScanInfo (buckets (thp_scan g)) (scan_zone (thp_scan_debugfs g))
                 (timespec64_sub now (last_scan_time (thp_scan_debugfs g)))
                 now (pfn (thp_scan_debugfs g)) /\
      buckets (thp_scan g') = zero_buckets
    else
      thp_scan_debugfs g' = thp_scan_debugfs g /\
      buckets (thp_scan g') = buckets (thp_scan g).
Proof.
  unfold thp_scan_next_zone_traced. intros H.
  destruct (scan_zone (thp_scan g)) as [z|] eqn:Hz; cbn in H; [|done].
  destruct (zones !! z) as [zn0|] eqn:Hzn0; cbn in H; [|done].
  destruct (next_zone zones z) as [nz|] eqn:Hnz.
  - rewrite bool_decide_eq_false_2 in H by done. cbn in H.
    destruct (zones !! nz) as [zn|] eqn:Hzn; cbn in H; [|done].
    injection H as <- <-.
    exists z, nz, zn. rewrite Hnz, Hzn0.
    rewrite bool_decide_eq_false_2 by done. cbn. repeat split; eauto.
  - rewrite bool_decide_eq_true_2 in H by done. cbn in H.
    destruct (zones !! first_online_zone) as [zn|] eqn:Hzn; cbn in H; [|done].
    injection H as <- <-.
    exists z, first_online_zone, zn. rewrite Hnz, Hzn0.
    rewrite bool_decide_eq_true_2 by done. cbn. repeat split; eauto.
Qed.

(** With a valid zone pointer and a non-empty enumeration the function
    completes. *)
Lemma thp_scan_next_zone_traced_total zones now g z :
  scan_zone (thp_scan g) = Some z -> (z < length zones)%nat ->
  exists g' published,
    thp_scan_next_zone_traced zones now g = Some (g', published) /\
    exists zi, scan_zone (thp_scan g') = Some zi /\ (zi < length zones)%nat.
Proof.
  intros Hz Hlt. unfold thp_scan_next_zone_traced. rewrite Hz. cbn.
  destruct (lookup_lt_is_Some_2 zones z Hlt) as [zn0 Hzn0]. rewrite Hzn0. cbn.
  unfold next_zone. destruct (decide (S z < length zones)%nat) as [Hs|Hs].
  - rewrite bool_decide_eq_false_2 by done. cbn.
    destruct (lookup_lt_is_Some_2 zones (S z) Hs) as [zn Hzn].
    rewrite Hzn. cbn. eexists _, _. split; [done|]. by exists (S z).
  - rewrite bool_decide_eq_true_2 by done. cbn.
    assert (first_online_zone < length zones)%nat as H0
      by (unfold first_online_zone; lia).
    destruct (lookup_lt_is_Some_2 zones _ H0) as [zn Hzn].
    rewrite Hzn. cbn. eexists _, _. split; [done|].
    by exists first_online_zone.
Qed.

End NextZone.

(** ** One firing of the work item *)

Section Firing.
Context {P : platform}.
Implicit Types (zones : list zone) (db : page_frame_db) (g : globals).

(** The zone a firing works on: the cursor's, or the first one when the
    cursor is still NULL. *)
Lemma thp_utilization_workfn_traced_inv zones db now g g' f :
  thp_utilization_workfn_traced zones db now g = Some (g', f) ->
  let z := default first_online_zone (scan_zone (thp_scan g)) in
  let g0 := with_scan (set_scan_zone (Some z)) g in
  exists zn, zones !! z = Some zn /\
    if negb (managed_zone zn) || (zone_end_pfn zn <=? pfn (thp_scan g))
    then exists published,
           thp_scan_next_zone_traced zones now g0 = Some (g', published) /\
           f = FiringNextZone published
    else exists tr,
           thp_util_scan_traced db (zone_end_pfn zn) g0 = (g', tr) /\
           f = FiringScan tr.
Proof.
  unfold thp_utilization_workfn_traced. intros H.
  set (g1 := match scan_zone (thp_scan g) with
             | Some _ => g
             | None => with_scan (set_scan_zone (Some first_online_zone)) g
             end) in H.
  assert (g1 = with_scan (set_scan_zone
                (Some (default first_online_zone (scan_zone (thp_scan g))))) g)
    as Hg1.
  { subst g1. destruct g as [d [bs [z|] t1 t2 p]]; done. }
  cbn zeta. rewrite <- Hg1.
  assert (scan_zone (thp_scan g1) =
          Some (default first_online_zone (scan_zone (thp_scan g)))) as Hz
    by (by rewrite Hg1).
  assert (pfn (thp_scan g1) = pfn (thp_scan g)) as Hp by (by rewrite Hg1).
  rewrite Hz in H. cbn in H.
  destruct (zones !! default first_online_zone (scan_zone (thp_scan g)))
    as [zn|] eqn:Hzn; cbn in H; [|done].
  exists zn. split; [done|]. rewrite Hp in H.
  destruct (negb (managed_zone zn) || (zone_end_pfn zn <=? pfn (thp_scan g))).
  - destruct (thp_scan_next_zone_traced zones now g1) as [[g2 b]|] eqn:E;
      cbn in H; [|done].
    injection H as <- <-. exists b. split; reflexivity.
  - destruct (thp_util_scan_traced db (zone_end_pfn zn) g1) as [g2 tr] eqn:E.
    injection H as <- <-. exists tr. split; reflexivity.
Qed.

End Firing.

(** C1, as the code has it: a firing performs at most
    [THP_UTIL_SCAN_SIZE] = 256 scan steps, and it either scans or moves to
    the next zone, never both.  A scanning firing leaves the cursor's zone
    and the published snapshot as they were and moves the cursor on by one
    huge page for every step it started.  It stops before the quantum is
    used up only at a step whose end-of-zone test succeeds, whether or not
    this ends the pass, and that step is its last.  The test of step [i]
    compares the frame number [cursor + i * HPAGE_PMD_NR], as stored in the
    [int] [current_pfn], with the end frame of the cursor's zone; for a zone
    that ends at or below frame 2^31 (and a cursor that is not negative, as
    an [unsigned long] is) it succeeds exactly when
    [cursor + i * HPAGE_PMD_NR] is at or past the zone's end.  The move to
    the next zone, and the publication when the enumeration wraps, is a
    firing of its own that performs no scan step. *)
Theorem firing_stays_in_zone {P : platform}
    (zones : list zone) (db : page_frame_db) (now : timespec64)
    (g g' : globals) (f : firing) :
  thp_utilization_workfn_traced zones db now g = Some (g', f) ->
  let z := default first_online_zone (scan_zone (thp_scan g)) in
  (firing_steps f <= THP_UTIL_SCAN_SIZE)%nat /\
  match f with
  | FiringScan tr =>
      scan_zone (thp_scan g') = Some z /\
      thp_scan_debugfs g' = thp_scan_debugfs g /\
      pfn (thp_scan g') =
        to_ulong (pfn (thp_scan g) + Z.of_nat (length tr) * HPAGE_PMD_NR) /\
      ((length tr < THP_UTIL_SCAN_SIZE)%nat -> last tr = Some ScanReturn) /\
      (forall i zn, tr !! i = Some ScanReturn -> zones !! z = Some zn ->
         zone_end_reached
           (to_int (pfn (thp_scan g) + Z.of_nat i * HPAGE_PMD_NR))
           (zone_end_pfn zn) = true) /\
      (forall i o zn, tr !! i = Some o -> zones !! z = Some zn ->
         (o = ScanReturn <->
          zone_end_reached
            (to_int (pfn (thp_scan g) + Z.of_nat i * HPAGE_PMD_NR))
            (zone_end_pfn zn) = true) /\
         (o = ScanReturn -> length tr = S i)) /\
      (forall i o zn, platform_ok ->
         tr !! i = Some o -> zones !! z = Some zn ->
         zone_end_pfn zn <= 2 ^ 31 -> 0 <= pfn (thp_scan g) ->
         (o = ScanReturn <->
          zone_end_pfn zn <= pfn (thp_scan g) + Z.of_nat i * HPAGE_PMD_NR))
  | FiringNextZone published =>
      firing_steps f = 0%nat /\
      (published = true <-> next_zone zones z = None) /\
      scan_zone (thp_scan g') =
        Some (default first_online_zone (next_zone zones z)) /\
      buckets (thp_scan g') =
        (if published then zero_buckets else buckets (thp_scan g))
  end.
Proof.
  intros H z. apply thp_utilization_workfn_traced_inv in H.
  destruct H as (zn & Hzn & H). fold z in Hzn, H.
  set (g0 := with_scan (set_scan_zone (Some z)) g) in H.
  destruct (negb (managed_zone zn) || (zone_end_pfn zn <=? pfn (thp_scan g)))
    eqn:Hbranch.
  - destruct H as (published & Hnz & ->).
    split; [cbn; lia|]. split; [done|].
    apply thp_scan_next_zone_traced_inv in Hnz.
    destruct Hnz as (z' & zi & zn' & Hz' & _ & -> & _ & -> & Hsz & _ & Hrest).
    cbn in Hz'. injection Hz' as <-.
    split; [|split; [done|]].
    + destruct (next_zone zones z); [rewrite bool_decide_eq_false_2 by done
                                    |rewrite bool_decide_eq_true_2 by done];
        split; done.
    + destruct (bool_decide (next_zone zones z = None));
        by destruct Hrest as [_ ->].
  - destruct H as (tr & Hscan & ->). rewrite thp_util_scan_traced_eq in Hscan.
    assert ((thp_util_scan_loop db (zone_end_pfn zn) THP_UTIL_SCAN_SIZE g0).1
            = g') as Hg by (rewrite Hscan; reflexivity).
    assert ((thp_util_scan_loop db (zone_end_pfn zn) THP_UTIL_SCAN_SIZE g0).2
            = tr) as Ht by (rewrite Hscan; reflexivity).
    clear Hscan. subst g' tr.
    split; [apply thp_util_scan_loop_length|].
    split; [apply (thp_util_scan_loop_frame db (zone_end_pfn zn) _ g0)|].
    split; [apply (thp_util_scan_loop_frame db (zone_end_pfn zn) _ g0)|].
    split; [apply (thp_util_scan_loop_pfn db (zone_end_pfn zn) _ g0);
            discriminate|].
    split; [apply thp_util_scan_loop_early|].
    split; [|split].
    + intros i zn' Hi Hzn'. assert (zn' = zn) as -> by congruence.
      apply (thp_util_scan_loop_return db (zone_end_pfn zn) _ g0 i Hi).
    + intros i o zn' Hi Hzn'. assert (zn' = zn) as -> by congruence.
      apply (thp_util_scan_loop_outcome db (zone_end_pfn zn) _ g0 i o Hi).
    + intros i o zn' Hok Hi Hzn' He Hp.
      assert (zn' = zn) as -> by congruence.
      apply orb_false_iff in Hbranch. destruct Hbranch as [_ Hlt].
      apply Z.leb_gt in Hlt.
      assert (0 <= pfn (thp_scan g) < 2 ^ 32) as Hp' by lia.
      apply (thp_util_scan_loop_outcome_low db (zone_end_pfn zn) _ g0 i o
               Hok He Hp' Hi).
Qed.

Lemma firing_stays_in_zone_witness :
  (firing_steps (FiringScan [ScanSkip; ScanSkip; ScanReturn])
     <= THP_UTIL_SCAN_SIZE)%nat /\
  scan_zone (thp_scan after_first_firing) = Some first_online_zone /\
  thp_scan_debugfs after_first_firing = thp_scan_debugfs init_globals.
Proof.
  pose proof (@firing_stays_in_zone x86_64 two_zones no_pages
                (Timespec64 1 0) init_globals after_first_firing
                (FiringScan [ScanSkip; ScanSkip; ScanReturn])) as H.
  destruct H as (Hq & Hzone & Hsnap & _).
  - vm_compute. reflexivity.
  - split; [exact Hq|]. split; [exact Hzone|exact Hsnap].
Defined.

(** The first firing on a machine with two zones of two huge pages each:
    it examines the two frames of the first zone, meets the zone's end on
    the third iteration and stops there, with 253 iterations of its quantum
    unused, the second zone not entered and no pass completed. *)
Lemma firing_stops_at_zone_end :
  ~ @stops_early_only_on_pass_completion x86_64 two_zones no_pages
      (Timespec64 1 0) init_globals.
Proof.
  intros H.
  specialize (H after_first_firing
                (FiringScan [ScanSkip; ScanSkip; ScanReturn])).
  assert (FiringScan [ScanSkip; ScanSkip; ScanReturn] = FiringNextZone true)
    as Habs; [|discriminate Habs].
  apply H.
  - vm_compute. reflexivity.
  - vm_compute. lia.
Qed.

(** The firing after it only moves the cursor to the second zone. *)
Example firing_after_zone_end :
  @thp_utilization_workfn_traced x86_64 two_zones no_pages (Timespec64 2 0)
    after_first_firing =
  Some (Globals zero_scan_info
          (ScanInfo zero_buckets (Some 1%nat) (Timespec64 0 0)
                    (Timespec64 0 0) 0),
        FiringNextZone false).
Proof. vm_compute. reflexivity. Qed.

(** ** Publication *)

Lemma timespec64_sub_ns (lhs rhs : timespec64) :
  timespec64_to_ns (timespec64_sub lhs rhs) =
    timespec64_to_ns lhs - timespec64_to_ns rhs.
Proof.
  unfold timespec64_to_ns, timespec64_sub, set_normalized_timespec64,
    NSEC_PER_SEC. cbn [tv_sec tv_nsec].
  pose proof (Z.div_mod (tv_nsec lhs - tv_nsec rhs) 1000000000). lia.
Qed.

(** The [i]-th line of the debugfs file shows the [i]-th bucket of the
    published snapshot. *)
Lemma thp_utilization_show_bucket {P : platform} (g : globals) (i : nat) b :
  (i < Z.to_nat THP_UTIL_BUCKET_NR)%nat ->
  buckets (thp_scan_debugfs g) !! i = Some b ->
  exists start end_,
    thp_utilization_show g !! i =
      Some (Utilized start end_ (nr_thps b) (nr_zero_pages b)).
Proof.
  intros Hi Hb. unfold thp_utilization_show.
  assert (seqZ 0 THP_UTIL_BUCKET_NR !! i = Some (Z.of_nat i)) as Hseq.
  { rewrite lookup_seqZ. unfold THP_UTIL_BUCKET_NR in *. split; lia. }
  rewrite lookup_app_l
    by (rewrite length_fmap, length_seqZ; exact Hi).
  rewrite list_lookup_fmap, Hseq. cbn [fmap option_fmap option_map].
  unfold show_bucket. rewrite Nat2Z.id, Hb. cbn [default nr_thps nr_zero_pages].
  eauto.
Qed.

(** C5: the firing that completes a pass (the zone enumeration has no
    successor for the cursor's zone, and the cursor goes back to the first
    zone of the first node) sets the published duration to the time read
    minus the previous [last_scan_time], sets [last_scan_time] to the time
    read, copies the accumulator's buckets into the published snapshot and
    clears the accumulator: the debugfs file then shows the totals of the
    pass just completed, and the next pass starts from zeroed buckets. *)
Theorem pass_completion_publishes {P : platform}
    (zones : list zone) (db : page_frame_db) (now : timespec64)
    (g g' : globals) :
  thp_utilization_workfn_traced zones db now g =
    Some (g', FiringNextZone true) ->
  next_zone zones (default first_online_zone (scan_zone (thp_scan g))) = None /\
  scan_zone (thp_scan g') = Some first_online_zone /\
  last_scan_duration (thp_scan_debugfs g') =
    timespec64_sub now (last_scan_time (thp_scan_debugfs g)) /\
  timespec64_to_ns (last_scan_duration (thp_scan_debugfs g')) =
    timespec64_to_ns now - timespec64_to_ns (last_scan_time (thp_scan_debugfs g)) /\
  last_scan_time (thp_scan_debugfs g') = now /\
  buckets (thp_scan_debugfs g') = buckets (thp_scan g) /\
  buckets (thp_scan g') =
    replicate (Z.to_nat THP_UTIL_BUCKET_NR) (Bucket 0 0) /\
  (forall (i : nat) b,
     (i < Z.to_nat THP_UTIL_BUCKET_NR)%nat ->
     buckets (thp_scan g) !! i = Some b ->
     exists start end_,
       thp_utilization_show g' !! i =
         Some (Utilized start end_ (nr_thps b) (nr_zero_pages b))).
Proof.
  intros H. apply thp_utilization_workfn_traced_inv in H.
  destruct H as (zn & Hzn & H).
  set (z := default first_online_zone (scan_zone (thp_scan g))) in *.
  destruct (negb (managed_zone zn) || (zone_end_pfn zn <=? pfn (thp_scan g)));
    [|by destruct H as (tr & _ & ?)].
  destruct H as (published & Hnz & [= <-]).
  apply thp_scan_next_zone_traced_inv in Hnz.
  destruct Hnz as (z' & zi & zn' & Hz' & _ & -> & _ & Hpub & Hsz & _ & Hd & Hb).
  cbn in Hz'. injection Hz' as <-.
  symmetry in Hpub. apply bool_decide_eq_true_1 in Hpub.
  rewrite Hpub in Hsz. cbn in Hsz, Hd. rewrite Hd.
  cbn [last_scan_duration last_scan_time buckets].
  split; [done|]. split; [done|]. split; [done|].
  split; [apply timespec64_sub_ns|]. split; [done|]. split; [done|].
  split; [done|].
  intros i b Hi Hbi.
  apply thp_utilization_show_bucket; [done|]. by rewrite Hd.
Qed.

Lemma pass_completion_publishes_witness :
  buckets (thp_scan_debugfs after_publication) =
    buckets (thp_scan at_end_of_pass) /\
  buckets (thp_scan after_publication) =
    replicate (Z.to_nat THP_UTIL_BUCKET_NR) (Bucket 0 0).
Proof.
  pose proof (@pass_completion_publishes x86_64 two_zones no_pages
                (Timespec64 7 500000000) at_end_of_pass after_publication)
    as H.
  destruct H as (_ & _ & _ & _ & _ & Hcopy & Hclear & _).
  - vm_compute. reflexivity.
  - split; [exact Hcopy|exact Hclear].
Defined.

(** ** Where the cursor enters a zone *)

Section ZoneEntry.
Context {P : platform}.
Hypothesis Hok : platform_ok.

Lemma HPAGE_PMD_SIZE_pow2 : HPAGE_PMD_SIZE = 2 ^ HPAGE_PMD_SHIFT.
Proof.
  destruct Hok as (H0 & H1 & H2 & H3). unfold HPAGE_PMD_SIZE.
  rewrite Z.shiftl_1_l. apply to_ulong_id. split.
  - apply Z.pow_nonneg. lia.
  - apply Z.pow_lt_mono_r; lia.
Qed.

(** What [(start + HPAGE_PMD_NR - 1) & ~(HPAGE_PMD_SIZE - 1)] evaluates to:
    the sum rounded down to a multiple of HPAGE_PMD_SIZE frames. *)
Lemma zone_entry_cursor (start : Z) :
  Z.land (to_ulong (start + HPAGE_PMD_NR - 1))
         (to_ulong (Z.lnot (to_ulong (HPAGE_PMD_SIZE - 1)))) =
  to_ulong (start + HPAGE_PMD_NR - 1) / HPAGE_PMD_SIZE * HPAGE_PMD_SIZE.
Proof.
  destruct Hok as (H0 & H1 & H2 & H3).
  rewrite HPAGE_PMD_SIZE_pow2.
  set (a := to_ulong (start + HPAGE_PMD_NR - 1)).
  set (s := HPAGE_PMD_SHIFT) in *.
  assert (0 <= a < 2 ^ 64) as Ha by apply to_ulong_range.
  assert (0 < 2 ^ s) by (apply Z.pow_pos_nonneg; lia).
  assert (2 ^ s < 2 ^ 64) by (apply Z.pow_lt_mono_r; lia).
  rewrite (to_ulong_id (2 ^ s - 1)) by lia.
  replace (2 ^ s - 1) with (Z.ones s) by (rewrite Z.ones_equiv; lia).
  unfold to_ulong at 1. rewrite <- (Z.land_ones _ 64) by lia.
  rewrite (Z.land_comm (Z.lnot (Z.ones s))), Z.land_assoc.
  rewrite (Z.land_ones a 64) by lia.
  rewrite (Z.mod_small a) by lia.
  rewrite <- Z.ldiff_land, Z.ldiff_ones_r by lia.
  rewrite Z.shiftr_div_pow2, Z.shiftl_mul_pow2 by lia. done.
Qed.

Lemma HPAGE_PMD_NR_divides_size : (HPAGE_PMD_NR | HPAGE_PMD_SIZE).
Proof.
  destruct Hok as (H0 & H1 & H2 & H3).
  rewrite HPAGE_PMD_SIZE_pow2, (HPAGE_PMD_NR_pow2 Hok).
  exists (2 ^ PAGE_SHIFT). rewrite <- Z.pow_add_r by (unfold HPAGE_PMD_ORDER; lia).
  f_equal. unfold HPAGE_PMD_ORDER. lia.
Qed.

Lemma HPAGE_PMD_NR_divides_ulong : (HPAGE_PMD_NR | 2 ^ 64).
Proof.
  destruct Hok as (H0 & H1 & H2 & H3).
  rewrite (HPAGE_PMD_NR_pow2 Hok). unfold HPAGE_PMD_ORDER.
  exists (2 ^ (64 - (HPAGE_PMD_SHIFT - PAGE_SHIFT))).
  rewrite <- Z.pow_add_r by lia. f_equal. lia.
Qed.

Lemma to_ulong_aligned (z : Z) :
  (HPAGE_PMD_NR | z) -> (HPAGE_PMD_NR | to_ulong z).
Proof.
  intros Hz. unfold to_ulong. rewrite Z.mod_eq by lia.
  apply Z.divide_sub_r; [done|].
  apply Z.divide_mul_l, HPAGE_PMD_NR_divides_ulong.
Qed.

(** The cursor a zone is entered with is huge-page aligned. *)
Lemma zone_entry_cursor_aligned (start : Z) :
  (HPAGE_PMD_NR |
   Z.land (to_ulong (start + HPAGE_PMD_NR - 1))
          (to_ulong (Z.lnot (to_ulong (HPAGE_PMD_SIZE - 1))))).
Proof.
  rewrite zone_entry_cursor.
  apply Z.divide_mul_r, HPAGE_PMD_NR_divides_size.
Qed.

(** Alignment of the cursor is kept by a firing, of either kind. *)
Lemma thp_utilization_workfn_aligned zones db now g g' f :
  thp_utilization_workfn_traced zones db now g = Some (g', f) ->
  (HPAGE_PMD_NR | pfn (thp_scan g)) -> (HPAGE_PMD_NR | pfn (thp_scan g')).
Proof.
  intros H Hal.
  apply thp_utilization_workfn_traced_inv in H.
  destruct H as (zn & _ & H).
  set (g0 := with_scan (set_scan_zone
               (Some (default first_online_zone (scan_zone (thp_scan g))))) g)
    in H.
  destruct (negb (managed_zone zn) || (zone_end_pfn zn <=? pfn (thp_scan g))).
  - destruct H as (b & Hnz & _).
    apply thp_scan_next_zone_traced_inv in Hnz.
    destruct Hnz as (z' & zi & zn' & _ & _ & _ & _ & _ & _ & -> & _).
    apply zone_entry_cursor_aligned.
  - destruct H as (tr & Hscan & _). rewrite thp_util_scan_traced_eq in Hscan.
    assert ((thp_util_scan_loop db (zone_end_pfn zn) THP_UTIL_SCAN_SIZE g0).1
            = g') as <- by (rewrite Hscan; reflexivity).
    rewrite thp_util_scan_loop_pfn by discriminate.
    apply to_ulong_aligned.
    apply Z.divide_add_r; [exact Hal|]. apply Z.divide_mul_r. reflexivity.
Qed.

(** At all times the cursor is a multiple of HPAGE_PMD_NR. *)
Lemma run_cursor_aligned zones ticks g log g' log' :
  run zones ticks g log = Some (g', log') ->
  (HPAGE_PMD_NR | pfn (thp_scan g)) -> (HPAGE_PMD_NR | pfn (thp_scan g')).
Proof.
  revert g log. induction ticks as [|[db now] ticks IH]; intros g log H Hal.
  - cbn in H. by injection H as <- <-.
  - cbn [run] in H.
    destruct (thp_utilization_workfn_traced zones db now g) as [[g1 f]|] eqn:E;
      cbn in H; [|done].
    eapply IH; [exact H|]. eapply thp_utilization_workfn_aligned; eauto.
Qed.

End ZoneEntry.

(** C2, at the zone layout of an x86-64 machine: when the cursor leaves
    ZONE_DMA and enters ZONE_DMA32, whose first frame is 4096,
    [thp_scan_next_zone] sets it to frame 0, where the zone's start rounded
    up to a multiple of HPAGE_PMD_NR = 512 is frame 4096: the sum
    [zone_start_pfn + HPAGE_PMD_NR - 1] is masked with HPAGE_PMD_SIZE - 1,
    a byte count, and so rounded down to a multiple of 2^21 frames. *)
Theorem zone_entry_cursor_x86_64 :
  @thp_scan_next_zone x86_64 x86_zones (Timespec64 0 0) at_end_of_dma =
    Some (Globals zero_scan_info
            (ScanInfo zero_buckets (Some 1%nat) (Timespec64 0 0)
                      (Timespec64 0 0) 0)) /\
  x86_zones !! 1%nat = Some (Zone 4096 1048576 true) /\
  @first_aligned_frame x86_64 (Zone 4096 1048576 true) = 4096 /\
  @HPAGE_PMD_NR x86_64 = 512 /\ @HPAGE_PMD_SIZE x86_64 = 2097152.
Proof. vm_compute. done. Qed.

(** ** The accumulator and the log of a pass *)

Lemma to_int_add (a b : Z) : to_int (to_int a + to_int b) = to_int (a + b).
Proof.
  assert (forall z, to_int z = z - 2 ^ 32 * ((z + 2 ^ 31) / 2 ^ 32)) as Hdef.
  { intros z. unfold to_int. rewrite Z.mod_eq by lia. lia. }
  rewrite (Hdef a), (Hdef b).
  replace (a - 2 ^ 32 * ((a + 2 ^ 31) / 2 ^ 32) +
           (b - 2 ^ 32 * ((b + 2 ^ 31) / 2 ^ 32)))
    with (a + b + (- ((a + 2 ^ 31) / 2 ^ 32) - (b + 2 ^ 31) / 2 ^ 32) * 2 ^ 32)
    by lia.
  unfold to_int at 1.
  replace (a + b + (- ((a + 2 ^ 31) / 2 ^ 32) - (b + 2 ^ 31) / 2 ^ 32) * 2 ^ 32
           + 2 ^ 31)
    with (a + b + 2 ^ 31 +
          (- ((a + 2 ^ 31) / 2 ^ 32) - (b + 2 ^ 31) / 2 ^ 32) * 2 ^ 32) by lia.
  by rewrite Z.mod_add by lia.
Qed.

Lemma to_int_add_l (a b : Z) : to_int (to_int a + b) = to_int (a + b).
Proof.
  rewrite <- (to_int_add a b), <- (to_int_add (to_int a) b).
  f_equal. f_equal. apply to_int_id, to_int_range.
Qed.

Lemma in_bucket_snoc_eq (i u : Z) (log : list (Z * Z)) :
  in_bucket i (log ++ [(i, u)]) = in_bucket i log ++ [u].
Proof.
  unfold in_bucket. rewrite filter_app, fmap_app. f_equal.
  rewrite filter_cons, decide_True by done. done.
Qed.

Lemma in_bucket_snoc_ne (i j u : Z) (log : list (Z * Z)) :
  i <> j -> in_bucket i (log ++ [(j, u)]) = in_bucket i log.
Proof.
  intros Hne. unfold in_bucket. rewrite filter_app, fmap_app.
  rewrite filter_cons, decide_False by (cbn; congruence).
  by rewrite filter_nil, app_nil_r.
Qed.

Lemma Zsum_snoc (l : list Z) (x : Z) : Zsum (l ++ [x]) = Zsum l + x.
Proof. unfold Zsum. induction l as [|y l IH]; cbn in *; lia. Qed.

Section Accounting.
Context {P : platform}.
Hypothesis Hok : platform_ok.
Implicit Types (zones : list zone) (db : page_frame_db) (g : globals)
  (log : list (Z * Z)).

Lemma accounts_zero : accounts zero_buckets [].
Proof.
  split; [unfold zero_buckets; by rewrite length_replicate|].
  intros i b Hb. unfold zero_buckets in Hb.
  apply lookup_replicate in Hb as [-> _]. done.
Qed.

(** A counted huge page keeps the agreement. *)
Lemma accounts_count bs log bucket u :
  0 <= bucket ->
  accounts bs log ->
  accounts (alter (count_thp u) (Z.to_nat bucket) bs) (log ++ [(bucket, u)]).
Proof.
  intros Hb [Hlen Hacc]. split; [by rewrite length_alter|].
  intros i b Hi.
  destruct (decide (i = Z.to_nat bucket)) as [->|Hne].
  - rewrite list_lookup_alter_eq in Hi.
    destruct (bs !! Z.to_nat bucket) as [b0|] eqn:Hb0; cbn in Hi; [|done].
    injection Hi as <-. destruct (Hacc _ _ Hb0) as [Ht Hz].
    rewrite Z2Nat.id in * by done.
    rewrite in_bucket_snoc_eq. unfold count_thp. cbn [nr_thps nr_zero_pages].
    rewrite Ht, Hz. split.
    + rewrite to_int_add_l, length_app. f_equal. cbn. lia.
    + rewrite to_int_add. f_equal. unfold zero_pages_of.
      by rewrite fmap_app, list_fmap_singleton, Zsum_snoc.
  - rewrite list_lookup_alter_ne in Hi by done.
    rewrite in_bucket_snoc_ne by lia. by apply Hacc.
Qed.

Lemma thp_util_scan_iter_accounts db pfn_end g log :
  accounts (buckets (thp_scan g)) log -> log_ok log ->
  accounts (buckets (thp_scan (thp_util_scan_iter db pfn_end g).1))
           (log ++ counted [(thp_util_scan_iter db pfn_end g).2]) /\
  log_ok (log ++ counted [(thp_util_scan_iter db pfn_end g).2]).
Proof.
  intros Hacc Hlog.
  pose proof (thp_util_scan_iter_buckets db pfn_end g) as Hb.
  pose proof (thp_util_scan_iter_count db pfn_end g) as Hc.
  destruct (thp_util_scan_iter db pfn_end g) as [g' o]. cbn [fst snd] in *.
  destruct o as [| |bucket u]; cbn [counted omap];
    rewrite ?app_nil_r, ?Hb; [done|done|].
  destruct (proj1 (Hc bucket u) eq_refl) as (_ & pg & _ & _ & Hbu & Hge).
  split.
  - by apply accounts_count.
  - apply Forall_app. split; [done|]. by apply Forall_singleton.
Qed.

Lemma counted_cons o tr : counted (o :: tr) = counted [o] ++ counted tr.
Proof. unfold counted. cbn. by destruct o. Qed.

Lemma thp_util_scan_loop_accounts db pfn_end n g log :
  accounts (buckets (thp_scan g)) log -> log_ok log ->
  accounts (buckets (thp_scan (thp_util_scan_loop db pfn_end n g).1))
           (log ++ counted (thp_util_scan_loop db pfn_end n g).2) /\
  log_ok (log ++ counted (thp_util_scan_loop db pfn_end n g).2).
Proof.
  revert g log. induction n as [|n IH]; intros g log Hacc Hlog.
  - cbn. by rewrite app_nil_r.
  - cbn [thp_util_scan_loop].
    pose proof (thp_util_scan_iter_accounts db pfn_end g log Hacc Hlog)
      as [Hacc1 Hlog1].
    destruct (thp_util_scan_iter db pfn_end g) as [g' o]. cbn [fst snd] in *.
    specialize (IH g' _ Hacc1 Hlog1).
    destruct (thp_util_scan_loop db pfn_end n g') as [g'' tr].
    cbn [fst snd] in *.
    destruct o; cbn [fst snd]; [done| |];
      by rewrite counted_cons, app_assoc.
Qed.

(** A firing keeps the agreement, with the log restarted on publication. *)
Lemma thp_utilization_workfn_accounts zones db now g g' f log :
  thp_utilization_workfn_traced zones db now g = Some (g', f) ->
  accounts (buckets (thp_scan g)) log -> log_ok log ->
  accounts (buckets (thp_scan g')) (log_after f log) /\
  log_ok (log_after f log).
Proof.
  intros H Hacc Hlog.
  apply thp_utilization_workfn_traced_inv in H.
  destruct H as (zn & _ & H).
  set (g0 := with_scan (set_scan_zone
               (Some (default first_online_zone (scan_zone (thp_scan g))))) g)
    in H.
  destruct (negb (managed_zone zn) || (zone_end_pfn zn <=? pfn (thp_scan g))).
  - destruct H as (published & Hnz & ->).
    apply thp_scan_next_zone_traced_inv in Hnz.
    destruct Hnz as (z' & zi & zn' & _ & _ & _ & _ & _ & _ & _ & Hrest).
    destruct published; cbn [log_after].
    + destruct Hrest as [_ ->]. split; [apply accounts_zero|constructor].
    + destruct Hrest as [_ ->]. done.
  - destruct H as (tr & Hscan & ->). rewrite thp_util_scan_traced_eq in Hscan.
    pose proof (thp_util_scan_loop_accounts db (zone_end_pfn zn)
                  THP_UTIL_SCAN_SIZE g0 log Hacc Hlog) as Hloop.
    rewrite Hscan in Hloop. exact Hloop.
Qed.

Lemma run_accounts zones ticks g log g' log' :
  run zones ticks g log = Some (g', log') ->
  accounts (buckets (thp_scan g)) log -> log_ok log ->
  accounts (buckets (thp_scan g')) log' /\ log_ok log'.
Proof.
  revert g log. induction ticks as [|[db now] ticks IH]; intros g log H Ha Hl.
  - cbn in H. by injection H as <- <-.
  - cbn [run] in H.
    destruct (thp_utilization_workfn_traced zones db now g) as [[g1 f]|] eqn:E;
      cbn in H; [|done].
    destruct (thp_utilization_workfn_accounts zones db now g g1 f log E Ha Hl).
    by eapply IH.
Qed.

End Accounting.

Section PassTotals.
Context {P : platform}.
Hypothesis Hok : platform_ok.
Implicit Types (log : list (Z * Z)) (us : list Z).

Lemma log_ok_range log :
  log_ok log ->
  Forall (fun e => 0 <= e.1 <= THP_UTIL_BUCKET_NR - 1 /\
                   0 <= e.2 <= HPAGE_PMD_NR) log.
Proof.
  intros Hlog. eapply Forall_impl; [exact Hlog|].
  intros [b u] [Hb Hge]. cbn in *.
  assert (0 <= u <= HPAGE_PMD_NR) as Hu.
  { destruct (decide (0 <= u <= HPAGE_PMD_NR)); [done|].
    assert (thp_utilization_bucket u < 0)
      by (apply (thp_utilization_bucket_neg Hok); lia).
    lia. }
  split; [|done]. rewrite Hb. by apply thp_utilization_bucket_valid.
Qed.

Lemma in_bucket_length i log :
  (length (in_bucket i log) <= length log)%nat.
Proof. unfold in_bucket. rewrite length_fmap. apply length_filter. Qed.

Lemma in_bucket_range i log :
  log_ok log -> Forall (fun u => 0 <= u <= HPAGE_PMD_NR) (in_bucket i log).
Proof.
  intros Hlog. apply log_ok_range in Hlog.
  rewrite Forall_forall in Hlog. apply Forall_forall. intros u Hu.
  unfold in_bucket in Hu.
  apply list_elem_of_fmap in Hu as (e & -> & He).
  apply list_elem_of_filter in He as [_ He].
  exact (proj2 (Hlog e He)).
Qed.

Lemma zero_pages_of_eq us :
  zero_pages_of us = Z.of_nat (length us) * HPAGE_PMD_NR - Zsum us.
Proof.
  unfold zero_pages_of, Zsum.
  induction us as [|u us IH]; cbn [fmap list_fmap foldr length]; [lia|].
  fold (fmap (M:=list) (fun u => HPAGE_PMD_NR - u) us). lia.
Qed.

Lemma zero_pages_of_bounds us :
  Forall (fun u => 0 <= u <= HPAGE_PMD_NR) us ->
  0 <= zero_pages_of us <= Z.of_nat (length us) * HPAGE_PMD_NR.
Proof.
  intros Hus. rewrite zero_pages_of_eq. unfold Zsum.
  induction Hus as [|u us Hu Hus IH]; cbn [foldr length]; lia.
Qed.

(** The buckets partition the log. *)
Lemma in_bucket_partition log :
  log_ok log ->
  Zsum ((fun i => Z.of_nat (length (in_bucket i log))) <$>
        seqZ 0 THP_UTIL_BUCKET_NR) = Z.of_nat (length log).
Proof.
  intros Hlog. apply log_ok_range in Hlog.
  induction Hlog as [|[b u] log [Hb _] _ IH]; [done|].
  cbn in Hb. unfold THP_UTIL_BUCKET_NR in *.
  cbn [length]. rewrite Nat2Z.inj_succ, <- IH. clear IH.
  change (seqZ 0 10) with [0; 1; 2; 3; 4; 5; 6; 7; 8; 9].
  unfold in_bucket, Zsum. cbn [fmap list_fmap foldr].
  rewrite !filter_cons. cbn [fst].
  assert (b = 0 \/ b = 1 \/ b = 2 \/ b = 3 \/ b = 4 \/
          b = 5 \/ b = 6 \/ b = 7 \/ b = 8 \/ b = 9) as Hcases by lia.
  repeat (destruct Hcases as [->|Hcases]); try subst b;
    repeat (first [rewrite decide_True by reflexivity
                  |rewrite decide_False by discriminate]);
    cbn [fmap list_fmap length]; lia.
Qed.

Lemma Zsum_nr_thps (bs : list thp_scan_info_bucket) (c : Z -> Z) :
  length bs = Z.to_nat THP_UTIL_BUCKET_NR ->
  (forall (i : nat) b, bs !! i = Some b -> nr_thps b = c (Z.of_nat i)) ->
  Zsum (nr_thps <$> bs) = Zsum (c <$> seqZ 0 THP_UTIL_BUCKET_NR).
Proof.
  intros Hlen Hc. f_equal. apply list_eq. intros i.
  rewrite !list_lookup_fmap.
  destruct (decide (i < Z.to_nat THP_UTIL_BUCKET_NR)%nat) as [Hi|Hi].
  - destruct (lookup_lt_is_Some_2 bs i ltac:(lia)) as [b Hb].
    rewrite Hb. cbn.
    assert (seqZ 0 THP_UTIL_BUCKET_NR !! i = Some (Z.of_nat i)) as ->
      by (rewrite lookup_seqZ; split; lia).
    cbn. f_equal. by apply Hc.
  - rewrite (lookup_ge_None_2 bs) by lia.
    rewrite (lookup_ge_None_2 (seqZ 0 THP_UTIL_BUCKET_NR))
      by (rewrite length_seqZ; lia).
    done.
Qed.

(** As long as [log] is short enough for every counter to stay an [int],
    the accumulator holds the exact totals of the log. *)
Lemma accounts_exact (bs : list thp_scan_info_bucket) log :
  accounts bs log -> log_ok log ->
  Z.of_nat (length log) * HPAGE_PMD_NR <= INT_MAX ->
  (forall (i : nat) b, bs !! i = Some b ->
     nr_thps b = Z.of_nat (length (in_bucket (Z.of_nat i) log)) /\
     nr_zero_pages b =
       nr_thps b * HPAGE_PMD_NR - Zsum (in_bucket (Z.of_nat i) log) /\
     0 <= nr_zero_pages b) /\
  Zsum (nr_thps <$> bs) = Z.of_nat (length log).
Proof.
  intros [Hlen Hacc] Hlog Hbound.
  pose proof (HPAGE_PMD_NR_bounds Hok) as HN.
  assert (forall (i : nat) b, bs !! i = Some b ->
            nr_thps b = Z.of_nat (length (in_bucket (Z.of_nat i) log)) /\
            nr_zero_pages b = zero_pages_of (in_bucket (Z.of_nat i) log))
    as Hexact.
  { intros i b Hb. destruct (Hacc i b Hb) as [-> ->].
    pose proof (in_bucket_length (Z.of_nat i) log) as Hle.
    pose proof (zero_pages_of_bounds _ (in_bucket_range (Z.of_nat i) log Hlog))
      as Hz.
    unfold INT_MAX in Hbound.
    split; apply to_int_id; unfold INT_MIN, INT_MAX; nia. }
  split.
  - intros i b Hb. destruct (Hexact i b Hb) as [Ht Hz].
    pose proof (zero_pages_of_bounds _ (in_bucket_range (Z.of_nat i) log Hlog)).
    rewrite Hz, Ht, <- zero_pages_of_eq. split; [done|]. split; [done|lia].
  - rewrite <- (in_bucket_partition log Hlog).
    apply Zsum_nr_thps; [done|]. intros i b Hb. by apply Hexact.
Qed.

End PassTotals.

(** ** Runs complete *)

Lemma thp_utilization_workfn_traced_total {P : platform}
    (zones : list zone) (db : page_frame_db) (now : timespec64) (g : globals) :
  zones <> [] -> zone_pointer_ok zones g ->
  exists g' f,
    thp_utilization_workfn_traced zones db now g = Some (g', f) /\
    zone_pointer_ok zones g'.
Proof.
  intros Hne Hwf.
  assert (0 < length zones)%nat as Hpos by (destruct zones; [done|cbn; lia]).
  set (z := default first_online_zone (scan_zone (thp_scan g))).
  assert (z < length zones)%nat as Hz.
  { subst z. unfold zone_pointer_ok in Hwf.
    destruct (scan_zone (thp_scan g)); cbn; [done|unfold first_online_zone; lia]. }
  destruct (lookup_lt_is_Some_2 zones z Hz) as [zn Hzn].
  unfold thp_utilization_workfn_traced.
  set (g1 := match scan_zone (thp_scan g) with
             | Some _ => g
             | None => with_scan (set_scan_zone (Some first_online_zone)) g
             end).
  assert (scan_zone (thp_scan g1) = Some z) as Hg1.
  { subst g1 z. by destruct (scan_zone (thp_scan g)) eqn:E. }
  rewrite Hg1. cbn [mbind option_bind]. rewrite Hzn. cbn [mbind option_bind].
  destruct (negb (managed_zone zn) || (zone_end_pfn zn <=? pfn (thp_scan g1))).
  - destruct (thp_scan_next_zone_traced_total zones now g1 z Hg1 Hz)
      as (g' & b & -> & zi & Hzi & Hlt).
    cbn [mbind option_bind]. exists g', (FiringNextZone b).
    split; [done|]. unfold zone_pointer_ok. by rewrite Hzi.
  - rewrite thp_util_scan_traced_eq.
    pose proof (thp_util_scan_loop_frame db (zone_end_pfn zn)
                  THP_UTIL_SCAN_SIZE g1) as [_ Hsz].
    destruct (thp_util_scan_loop db (zone_end_pfn zn) THP_UTIL_SCAN_SIZE g1)
      as [g' tr].
    exists g', (FiringScan tr). split; [done|].
    unfold zone_pointer_ok. cbn [fst] in Hsz. by rewrite Hsz, Hg1.
Qed.

(** From boot on, on a machine with at least one zone, every firing runs to
    completion. *)
Lemma run_total {P : platform} (zones : list zone)
    (ticks : list (page_frame_db * timespec64)) (g : globals) log :
  zones <> [] -> zone_pointer_ok zones g ->
  exists g' log', run zones ticks g log = Some (g', log').
Proof.
  intros Hne. revert g log.
  induction ticks as [|[db now] ticks IH]; intros g log Hwf.
  - by exists g, log.
  - cbn [run].
    destruct (thp_utilization_workfn_traced_total zones db now g Hne Hwf)
      as (g1 & f & -> & Hwf1).
    cbn [mbind option_bind]. by apply IH.
Qed.

(** The accumulator against the counting steps of the pass under way.  At
    any point of a run from boot, with [log] the counting steps since the
    last publication (a huge page that is counted twice is logged twice),
    and as long as [length log * HPAGE_PMD_NR] fits the [int] counters:
    every bucket of the accumulator has [nr_thps] the number of logged steps
    that went to it, [nr_zero_pages = nr_thps * HPAGE_PMD_NR] minus the sum
    of their utilized counts, [nr_zero_pages >= 0]; and the [nr_thps] of
    all buckets add up to the length of the log. *)
Theorem pass_accounting {P : platform} (zones : list zone)
    (ticks : list (page_frame_db * timespec64))
    (g : globals) (log : list (Z * Z)) :
  platform_ok ->
  run zones ticks init_globals [] = Some (g, log) ->
  Z.of_nat (length log) * HPAGE_PMD_NR <= INT_MAX ->
  (forall (i : nat) b, buckets (thp_scan g) !! i = Some b ->
     nr_thps b = Z.of_nat (length (in_bucket (Z.of_nat i) log)) /\
     nr_zero_pages b =
       nr_thps b * HPAGE_PMD_NR - Zsum (in_bucket (Z.of_nat i) log) /\
     0 <= nr_zero_pages b) /\
  Zsum (nr_thps <$> buckets (thp_scan g)) = Z.of_nat (length log) /\
  length (buckets (thp_scan g)) = Z.to_nat THP_UTIL_BUCKET_NR /\
  Forall (fun e => e.1 = thp_utilization_bucket e.2 /\ 0 <= e.1) log.
Proof.
  intros Hok Hrun Hbound.
  destruct (run_accounts zones ticks init_globals [] g log Hrun)
    as [Hacc Hlog]; [apply accounts_zero|constructor|].
  destruct (accounts_exact Hok _ _ Hacc Hlog Hbound) as [Hb Hsum].
  split; [exact Hb|]. split; [exact Hsum|]. split; [apply Hacc|exact Hlog].
Qed.

Lemma pass_accounting_witness :
  Zsum (nr_thps <$> [Bucket 1 511; zero_bucket; zero_bucket; zero_bucket;
                     zero_bucket; zero_bucket; zero_bucket; zero_bucket;
                     zero_bucket; zero_bucket]) = Z.of_nat (length [(0, 1)]).
Proof.
  pose proof (@pass_accounting x86_64 two_zones
                [(one_thp sample_thp, Timespec64 1 0)]
                (Globals zero_scan_info
                   (ScanInfo (Bucket 1 511 :: replicate 9 zero_bucket)
                             (Some 0%nat) (Timespec64 0 0) (Timespec64 0 0)
                             1536))
                [(0, 1)]) as H.
  destruct H as (_ & Hsum & _).
  - unfold platform_ok; cbn; lia.
  - vm_compute. reflexivity.
  - vm_compute. discriminate.
  - exact Hsum.
Defined.

(** C6, on two zones of two huge pages each, with one transparent huge page
    in memory, at frame 0 (no other frame has an online page): three
    firings after boot the pass is still under way, nothing has been
    published, and the accumulator has counted the one huge page twice,
    bucket 0 holding [nr_thps = 2] and [nr_zero_pages = 1022].  The first
    firing counts it from the first zone; the second firing enters the
    second zone with the cursor at frame 0, the zone's start having been
    rounded down by the mask of [thp_scan_next_zone]; the third firing
    scans the frames of the first zone again and counts it once more. *)
Theorem pass_counts_unit_twice :
  (forall p, pfn_to_online_page (one_thp sample_thp) p <> None <-> p = 0) /\
  @run x86_64 two_zones (replicate 3 (one_thp sample_thp, Timespec64 1 0))
    init_globals [] = Some (in_second_zone, [(0, 1); (0, 1)]) /\
  thp_scan_debugfs in_second_zone = thp_scan_debugfs init_globals /\
  scan_zone (thp_scan in_second_zone) = Some 1%nat /\
  buckets (thp_scan in_second_zone) !! 0%nat = Some (Bucket 2 1022) /\
  Zsum (nr_thps <$> buckets (thp_scan in_second_zone)) = 2.
Proof.
  split.
  { intros p. cbn. destruct (Z.eqb_spec p 0); split; done. }
  split; [vm_compute; reflexivity|].
  split; [reflexivity|]. split; [reflexivity|].
  split; reflexivity.
Qed.

(** * Further properties of the scanner *)

(** ** What the debugfs file prints *)

Section Show.
Context {P : platform}.
Hypothesis Hok : platform_ok.


(** The [i]-th line, with the [int] arithmetic of its range carried out. *)
Lemma thp_utilization_show_line (g : globals) (i : nat) :
  (i < 10)%nat ->
  thp_utilization_show g !! i =
    Some (Utilized
            (Z.of_nat i * HPAGE_PMD_NR / 10)
            (if decide (i = 9%nat) then HPAGE_PMD_NR
             else (Z.of_nat i + 1) * HPAGE_PMD_NR / 10 - 1)
            (nr_thps (default zero_bucket (buckets (thp_scan_debugfs g) !! i)))
            (nr_zero_pages
               (default zero_bucket (buckets (thp_scan_debugfs g) !! i)))).
Proof.
  intros Hi. pose proof (HPAGE_PMD_NR_bounds Hok) as HN.
  unfold thp_utilization_show.
  assert (seqZ 0 THP_UTIL_BUCKET_NR !! i = Some (Z.of_nat i)) as Hseq.
  { rewrite lookup_seqZ. unfold THP_UTIL_BUCKET_NR. split; lia. }
  rewrite lookup_app_l
    by (rewrite length_fmap, length_seqZ; unfold THP_UTIL_BUCKET_NR; lia).
  rewrite list_lookup_fmap, Hseq. cbn [fmap option_fmap option_map].
  unfold show_bucket, THP_UTIL_BUCKET_NR. rewrite Nat2Z.id.
  rewrite (to_int_id (Z.of_nat i * HPAGE_PMD_NR))
    by (unfold INT_MIN, INT_MAX; nia).
  rewrite (Z.quot_div_nonneg (Z.of_nat i * HPAGE_PMD_NR)) by lia.
  assert (0 <= Z.of_nat i * HPAGE_PMD_NR / 10 <= HPAGE_PMD_NR).
  { split; [apply Z.div_pos; lia|]. apply Z.div_le_upper_bound; nia. }
  rewrite (to_int_id (Z.of_nat i * HPAGE_PMD_NR / 10))
    by (unfold INT_MIN, INT_MAX; lia).
  rewrite (to_int_id (Z.of_nat i + 1)) by (unfold INT_MIN, INT_MAX; lia).
  f_equal. f_equal.
  destruct (decide (i = 9%nat)) as [->|Hne].
  - reflexivity.
  - assert ((Z.of_nat i + 1 =? 10) = false) as -> by lia.
    rewrite (to_int_id ((Z.of_nat i + 1) * HPAGE_PMD_NR))
      by (unfold INT_MIN, INT_MAX; nia).
    rewrite (Z.quot_div_nonneg ((Z.of_nat i + 1) * HPAGE_PMD_NR)) by lia.
    assert (0 <= (Z.of_nat i + 1) * HPAGE_PMD_NR / 10 <= HPAGE_PMD_NR).
    { split; [apply Z.div_pos; lia|]. apply Z.div_le_upper_bound; nia. }
    rewrite (to_int_id ((Z.of_nat i + 1) * HPAGE_PMD_NR / 10))
      by (unfold INT_MIN, INT_MAX; lia).
    apply to_int_id. unfold INT_MIN, INT_MAX. lia.
Qed.


End Show.



(** X2: a utilized count that [thp_utilization_bucket] places in bucket [i]
    is at least the start of the range printed for line [i] and at most one
    above its end; it is within the range for the last bucket.  The one
    above is met: with 512 subpages a count of 51 goes to bucket 0, whose
    line reads 0-50. *)
Theorem bucket_within_printed_range {P : platform} (g : globals) (u : Z)
    s e n z :
  platform_ok -> 0 <= u <= HPAGE_PMD_NR ->
  thp_utilization_show g !! Z.to_nat (thp_utilization_bucket u) =
    Some (Utilized s e n z) ->
  s <= u <= e + 1 /\
  (thp_utilization_bucket u = THP_UTIL_BUCKET_NR - 1 -> u <= e) /\
  (@thp_utilization_bucket x86_64 51 = 0 /\
   exists n0 z0,
     @thp_utilization_show x86_64 init_globals !! 0%nat =
       Some (Utilized 0 50 n0 z0)).
Proof.
  intros Hok Hu Hline. pose proof (HPAGE_PMD_NR_bounds Hok) as HN.
  assert (0 < HPAGE_PMD_NR) as Hpos by lia.
  assert (HPAGE_PMD_NR <> 0) as Hnz by lia.
  pose proof (thp_utilization_bucket_valid Hok u Hu) as Hb.
  pose proof (thp_utilization_bucket_in_range Hok u Hu) as Hfloor.
  unfold THP_UTIL_BUCKET_NR in *.
  set (b := thp_utilization_bucket u) in *.
  rewrite (thp_utilization_show_line Hok g (Z.to_nat b)) in Hline by lia.
  injection Hline as <- <- _ _. rewrite Z2Nat.id by lia.
  assert (b <= u * 10 / HPAGE_PMD_NR) as Hle by lia.
  assert (b * HPAGE_PMD_NR <= u * 10).
  { pose proof (Z.mul_div_le (u * 10) HPAGE_PMD_NR Hpos) as Hq.
    set (q := u * 10 / HPAGE_PMD_NR) in *. clearbody q b. nia. }
  assert (b * HPAGE_PMD_NR / 10 <= u)
    by (apply Z.div_le_upper_bound; lia).
  split; [|split].
  - split; [done|].
    destruct (decide (Z.to_nat b = 9%nat)); [lia|].
    assert (b = u * 10 / HPAGE_PMD_NR) as Hb' by lia.
    assert (u * 10 < (b + 1) * HPAGE_PMD_NR).
    { pose proof (Z.mod_pos_bound (u * 10) HPAGE_PMD_NR Hpos) as Hm.
      pose proof (Z.div_mod (u * 10) HPAGE_PMD_NR Hnz) as Hdm.
      rewrite <- Hb' in Hdm. clear Hfloor Hle.
      set (r := (u * 10) mod HPAGE_PMD_NR) in *. clearbody r. nia. }
    assert (u <= (b + 1) * HPAGE_PMD_NR / 10)
      by (apply Z.div_le_lower_bound; lia).
    lia.
  - intros Hlast. rewrite decide_True by lia. lia.
  - split; [vm_compute; reflexivity|].
    exists 0, 0. vm_compute. reflexivity.
Qed.

Lemma bucket_within_printed_range_witness :
  0 <= 51 <= 50 + 1.
Proof.
  refine (proj1 (@bucket_within_printed_range x86_64 init_globals 51
                   0 50 0 0 _ _ _)).
  - unfold platform_ok; cbn; lia.
  - vm_compute. split; discriminate.
  - vm_compute. reflexivity.
Defined.

(** ** Folios of any size *)





(** X5: a large anonymous folio of at most a tenth of HPAGE_PMD_NR pages is
    always put in the last bucket, whatever its content. *)
Theorem small_folio_in_last_bucket {P : platform} (f : folio) :
  platform_ok ->
  folio_test_anon f = true -> folio_test_large f = true ->
  folio_nr_pages f * THP_UTIL_BUCKET_NR <= HPAGE_PMD_NR ->
  thp_utilization_bucket (thp_number_utilized_pages (Some f)) =
    THP_UTIL_BUCKET_NR - 1.
Proof.
  intros Hok Ha Hl Hn. pose proof (HPAGE_PMD_NR_bounds Hok) as HN.
  unfold THP_UTIL_BUCKET_NR in *.
  rewrite (thp_number_utilized_pages_eligible f Hok Ha Hl) by lia.
  pose proof (nr_zero_windows_bounds f) as Hz.
  rewrite (thp_utilization_bucket_in_range Hok) by lia.
  unfold THP_UTIL_BUCKET_NR.
  assert (9 <= (HPAGE_PMD_NR - nr_zero_windows f) * 10 / HPAGE_PMD_NR)
    by (apply Z.div_le_lower_bound; lia).
  lia.
Qed.

Lemma small_folio_in_last_bucket_witness :
  @thp_utilization_bucket x86_64
    (@thp_number_utilized_pages x86_64 (Some small_folio)) =
  THP_UTIL_BUCKET_NR - 1.
Proof.
  apply (@small_folio_in_last_bucket x86_64 small_folio).
  - unfold platform_ok; cbn; lia.
  - reflexivity.
  - reflexivity.
  - vm_compute. discriminate.
Defined.

(** ** What a counting step writes *)

(** X6: a scan step short of the zone's end whose frame heads an anonymous
    huge page of HPAGE_PMD_NR pages, with [z] the number of [i] below
    HPAGE_PMD_NR for which the PAGE_SIZE bytes of the huge page from byte
    [i] on are all zero, counts it in bucket
    [min ((HPAGE_PMD_NR - z) * 10 / HPAGE_PMD_NR) 9]: that bucket's
    [nr_thps] goes up by one and its [nr_zero_pages] by [z] (as [int]s),
    and every other bucket is left as it was. *)
Theorem scan_step_counts_thp {P : platform}
    (db : page_frame_db) (pfn_end : Z) (g : globals) (pg : page) :
  platform_ok ->
  zone_end_reached (current_pfn_of g) pfn_end = false ->
  pfn_to_online_page db (to_ulong (current_pfn_of g)) = Some pg ->
  folio_test_anon (page_folio db pg) = true ->
  folio_test_large (page_folio db pg) = true ->
  folio_nr_pages (page_folio db pg) = HPAGE_PMD_NR ->
  let z := nr_zero_windows (page_folio db pg) in
  let b := Z.min ((HPAGE_PMD_NR - z) * THP_UTIL_BUCKET_NR / HPAGE_PMD_NR)
                 (THP_UTIL_BUCKET_NR - 1) in
  (thp_util_scan_iter db pfn_end g).2 = ScanCount b (HPAGE_PMD_NR - z) /\
  length (buckets (thp_scan (thp_util_scan_iter db pfn_end g).1)) =
    length (buckets (thp_scan g)) /\
  forall (j : nat) bk, buckets (thp_scan g) !! j = Some bk ->
    buckets (thp_scan (thp_util_scan_iter db pfn_end g).1) !! j =
      Some (if decide (j = Z.to_nat b)
            then Bucket (to_int (nr_thps bk + 1))
                        (to_int (nr_zero_pages bk + z))
            else bk).
Proof.
  intros Hok Hend Hpg Ha Hl Hn z b.
  pose proof (HPAGE_PMD_NR_bounds Hok) as HN.
  pose proof (nr_zero_windows_bounds (page_folio db pg)) as Hz.
  fold z in Hz. rewrite Hn in Hz.
  assert (thp_number_utilized_pages (Some (page_folio db pg)) =
          HPAGE_PMD_NR - z) as Hu
    by (apply thp_number_utilized_pages_eligible; [done..|lia]).
  assert (thp_utilization_bucket (HPAGE_PMD_NR - z) = b) as Hb
    by (apply thp_utilization_bucket_in_range; [done|lia]).
  assert (0 <= b).
  { rewrite <- Hb.
    apply (thp_utilization_bucket_valid Hok (HPAGE_PMD_NR - z)). lia. }
  assert ((thp_util_scan_iter db pfn_end g).2 =
          ScanCount b (HPAGE_PMD_NR - z)) as Ho.
  { apply thp_util_scan_iter_count. split; [done|].
    exists pg. rewrite Hu, Hb. by repeat split. }
  pose proof (thp_util_scan_iter_buckets db pfn_end g) as Hbs.
  rewrite Ho in Hbs. rewrite Hbs.
  split; [done|]. split; [apply length_alter|].
  intros j bk Hj.
  destruct (decide (j = Z.to_nat b)) as [->|Hne].
  - rewrite list_lookup_alter_eq, Hj. cbn. unfold count_thp.
    replace (HPAGE_PMD_NR - (HPAGE_PMD_NR - z)) with z by lia.
    rewrite (to_int_id z) by (unfold INT_MIN, INT_MAX; lia). done.
  - by rewrite list_lookup_alter_ne.
Qed.

Lemma scan_step_counts_thp_witness :
  (@thp_util_scan_iter x86_64 (one_thp sample_thp) 1024 init_globals).2 =
    ScanCount
      (Z.min ((@HPAGE_PMD_NR x86_64 - @nr_zero_windows x86_64 sample_thp) *
              THP_UTIL_BUCKET_NR / @HPAGE_PMD_NR x86_64)
             (THP_UTIL_BUCKET_NR - 1))
      (@HPAGE_PMD_NR x86_64 - @nr_zero_windows x86_64 sample_thp).
Proof.
  refine (proj1 (@scan_step_counts_thp x86_64 (one_thp sample_thp) 1024
                   init_globals 0%nat _ _ _ _ _ _)).
  - unfold platform_ok; cbn; lia.
  - reflexivity.
  - reflexivity.
  - reflexivity.
  - reflexivity.
  - vm_compute. reflexivity.
Defined.

(** X7: whenever a scan step counts, the bucket it writes to is inside the
    array ([0 <= bucket <= THP_UTIL_BUCKET_NR - 1]), it is the bucketizer's
    answer for the utilized count, and the amount added to [nr_zero_pages]
    lies between 0 and HPAGE_PMD_NR. *)
Theorem scan_step_write_in_bounds {P : platform}
    (db : page_frame_db) (pfn_end : Z) (g : globals) (bucket u : Z) :
  platform_ok ->
  (thp_util_scan_iter db pfn_end g).2 = ScanCount bucket u ->
  0 <= bucket <= THP_UTIL_BUCKET_NR - 1 /\
  bucket = thp_utilization_bucket u /\
  0 <= HPAGE_PMD_NR - u <= HPAGE_PMD_NR /\
  to_int (HPAGE_PMD_NR - u) = HPAGE_PMD_NR - u /\
  length (buckets (thp_scan (thp_util_scan_iter db pfn_end g).1)) =
    length (buckets (thp_scan g)).
Proof.
  intros Hok Ho. pose proof (HPAGE_PMD_NR_bounds Hok) as HN.
  pose proof (thp_util_scan_iter_buckets db pfn_end g) as Hbs.
  rewrite Ho in Hbs.
  apply thp_util_scan_iter_count in Ho.
  destruct Ho as (_ & pg & _ & Hu & Hb & Hge).
  assert (0 <= u <= HPAGE_PMD_NR) as Hrange.
  { destruct (decide (0 <= u <= HPAGE_PMD_NR)); [done|].
    assert (thp_utilization_bucket u < 0)
      by (apply (thp_utilization_bucket_neg Hok); lia).
    lia. }
  split; [rewrite Hb; by apply thp_utilization_bucket_valid|].
  split; [done|]. split; [lia|].
  split; [apply to_int_id; unfold INT_MIN, INT_MAX; lia|].
  rewrite Hbs. apply length_alter.
Qed.

Lemma scan_step_write_in_bounds_witness :
  0 <= 0 <= THP_UTIL_BUCKET_NR - 1.
Proof.
  refine (proj1 (@scan_step_write_in_bounds x86_64 (one_thp sample_thp) 1024
                   init_globals 0 1 _ _)).
  - unfold platform_ok; cbn; lia.
  - vm_compute. reflexivity.
Defined.

(** ** Zone pointers *)

(** X8: on a machine with at least one zone, every run from boot completes:
    no firing dereferences a NULL or dangling zone pointer, and the pointer
    the run leaves is NULL or inside the enumeration.  The NULL test of the
    work function is what guards [thp_scan_next_zone], which on a NULL
    [scan_zone] would fault. *)
Theorem run_never_faults {P : platform} (zones : list zone)
    (ticks : list (page_frame_db * timespec64)) :
  zones <> [] ->
  (exists g log,
     run zones ticks init_globals [] = Some (g, log) /\
     zone_pointer_ok zones g /\
     (ticks <> [] -> is_Some (scan_zone (thp_scan g)))) /\
  (forall now g, scan_zone (thp_scan g) = None ->
     thp_scan_next_zone zones now g = None).
Proof.
  intros Hne. split.
  - assert (forall g log, zone_pointer_ok zones g ->
              exists g' log', run zones ticks g log = Some (g', log') /\
                zone_pointer_ok zones g' /\
                (ticks <> [] -> is_Some (scan_zone (thp_scan g')))) as Hgen.
    { induction ticks as [|[db now] ticks IH]; intros g log Hwf.
      - exists g, log. by repeat split.
      - cbn [run].
        destruct (thp_utilization_workfn_traced_total zones db now g Hne Hwf)
          as (g1 & f & E & Hwf1).
        rewrite E. cbn [mbind option_bind].
        destruct (IH g1 (log_after f log) Hwf1) as (g' & log' & Hrun & Hwf' & Hs).
        exists g', log'. split; [done|]. split; [done|]. intros _.
        destruct ticks as [|t ticks']; [|by apply Hs].
        cbn in Hrun. injection Hrun as <- _.
        apply thp_utilization_workfn_traced_inv in E.
        destruct E as (zn & _ & E).
        destruct (negb (managed_zone zn) || _).
        + destruct E as (b & Hnz & _).
          apply thp_scan_next_zone_traced_inv in Hnz.
          destruct Hnz as (? & zi & ? & _ & _ & _ & _ & _ & -> & _). eauto.
        + destruct E as (tr & Hscan & _).
          rewrite thp_util_scan_traced_eq in Hscan.
          pose proof (thp_util_scan_loop_frame db (zone_end_pfn zn)
                        THP_UTIL_SCAN_SIZE
                        (with_scan (set_scan_zone
                           (Some (default first_online_zone
                                    (scan_zone (thp_scan g))))) g))
            as [_ Hsz].
          rewrite Hscan in Hsz. cbn [fst] in Hsz. rewrite Hsz. cbn. eauto. }
    apply Hgen. exact I.
  - intros now g Hz. unfold thp_scan_next_zone, thp_scan_next_zone_traced.
    by rewrite Hz.
Qed.

Lemma run_never_faults_witness :
  exists g log,
    @run x86_64 two_zones [(no_pages, Timespec64 1 0)] init_globals [] =
      Some (g, log) /\
    zone_pointer_ok two_zones g /\
    ([(no_pages, Timespec64 1 0)] <> [] -> is_Some (scan_zone (thp_scan g))).
Proof.
  refine (proj1 (@run_never_faults x86_64 two_zones
                   [(no_pages, Timespec64 1 0)] _)).
  discriminate.
Defined.

(** X14: a firing that moves the cursor to another zone moves it to the
    next zone of the enumeration, cyclically, and publishes exactly when it
    leaves the last one. *)
Theorem next_zone_firing_cycles {P : platform}
    (zones : list zone) (db : page_frame_db) (now : timespec64)
    (g g' : globals) (published : bool) :
  thp_utilization_workfn_traced zones db now g =
    Some (g', FiringNextZone published) ->
  let z := default first_online_zone (scan_zone (thp_scan g)) in
  (z < length zones)%nat /\
  scan_zone (thp_scan g') = Some ((z + 1) mod length zones)%nat /\
  (published = true <-> S z = length zones).
Proof.
  intros H z. apply thp_utilization_workfn_traced_inv in H.
  destruct H as (zn & Hzn & H). fold z in Hzn, H.
  destruct (negb (managed_zone zn) || _); [|by destruct H as (tr & _ & ?)].
  destruct H as (b & Hnz & [= <-]).
  apply thp_scan_next_zone_traced_inv in Hnz.
  destruct Hnz as (z' & zi & zn' & Hz' & _ & -> & _ & -> & -> & _).
  cbn in Hz'. injection Hz' as <-.
  pose proof (lookup_lt_Some _ _ _ Hzn) as Hlt.
  split; [done|]. unfold next_zone.
  destruct (decide (S z < length zones)%nat) as [Hs|Hs].
  - rewrite bool_decide_eq_false_2 by done. cbn [default]. unfold id.
    clearbody z.
    split; [f_equal; rewrite Nat.mod_small by lia; lia|]. split; [done|lia].
  - rewrite bool_decide_eq_true_2 by done. cbn [default]. clearbody z.
    assert (z + 1 = length zones)%nat as -> by lia.
    rewrite Nat.Div0.mod_same. split; [done|]. split; [lia|done].
Qed.

Lemma next_zone_firing_cycles_witness :
  scan_zone (thp_scan after_publication) =
    Some ((default first_online_zone (scan_zone (thp_scan at_end_of_pass)) + 1)
            mod length two_zones)%nat.
Proof.
  pose proof (@next_zone_firing_cycles x86_64 two_zones no_pages
                (Timespec64 7 500000000) at_end_of_pass after_publication
                true) as H.
  destruct H as (_ & Hz & _).
  - vm_compute. reflexivity.
  - exact Hz.
Defined.

(** ** The published snapshot between publications *)

(** What a firing does to the published object. *)
Lemma thp_utilization_workfn_snapshot {P : platform}
    (zones : list zone) (db : page_frame_db) (now : timespec64)
    (g g' : globals) (f : firing) :
  thp_utilization_workfn_traced zones db now g = Some (g', f) ->
  match f with
  | FiringNextZone true =>
      buckets (thp_scan_debugfs g') = buckets (thp_scan g)
  | _ => thp_scan_debugfs g' = thp_scan_debugfs g
  end.
Proof.
  intros H. apply thp_utilization_workfn_traced_inv in H.
  destruct H as (zn & _ & H).
  set (g0 := with_scan (set_scan_zone
               (Some (default first_online_zone (scan_zone (thp_scan g))))) g)
    in H.
  destruct (negb (managed_zone zn) || _).
  - destruct H as (b & Hnz & ->).
    apply thp_scan_next_zone_traced_inv in Hnz.
    destruct Hnz as (? & ? & ? & _ & _ & _ & _ & -> & _ & _ & Hrest).
    destruct (bool_decide _); destruct Hrest as [Hd _]; [|done].
    by rewrite Hd.
  - destruct H as (tr & Hscan & ->). rewrite thp_util_scan_traced_eq in Hscan.
    pose proof (thp_util_scan_loop_frame db (zone_end_pfn zn)
                  THP_UTIL_SCAN_SIZE g0) as [Hd _].
    by rewrite Hscan in Hd.
Qed.

(** X12: a firing that does not complete a pass, whether it scans or moves
    to the next zone, leaves the published object untouched, and with it
    every line of the debugfs file. *)
Theorem snapshot_changes_only_on_publication {P : platform}
    (zones : list zone) (db : page_frame_db) (now : timespec64)
    (g g' : globals) (f : firing) :
  thp_utilization_workfn_traced zones db now g = Some (g', f) ->
  f <> FiringNextZone true ->
  thp_scan_debugfs g' = thp_scan_debugfs g /\
  thp_utilization_show g' = thp_utilization_show g.
Proof.
  intros H Hf. apply thp_utilization_workfn_snapshot in H.
  assert (thp_scan_debugfs g' = thp_scan_debugfs g) as Hd.
  { destruct f as [tr|[|]]; [done|by destruct Hf|done]. }
  split; [done|]. unfold thp_utilization_show. by rewrite Hd.
Qed.

Lemma snapshot_changes_only_on_publication_witness :
  thp_scan_debugfs after_first_firing = thp_scan_debugfs init_globals /\
  @thp_utilization_show x86_64 after_first_firing =
    @thp_utilization_show x86_64 init_globals.
Proof.
  apply (@snapshot_changes_only_on_publication x86_64 two_zones no_pages
           (Timespec64 1 0) init_globals after_first_firing
           (FiringScan [ScanSkip; ScanSkip; ScanReturn])).
  - vm_compute. reflexivity.
  - discriminate.
Defined.

(** ** The cursor over a run *)

Lemma thp_utilization_workfn_pfn_range {P : platform}
    (zones : list zone) (db : page_frame_db) (now : timespec64)
    (g g' : globals) (f : firing) :
  platform_ok ->
  thp_utilization_workfn_traced zones db now g = Some (g', f) ->
  0 <= pfn (thp_scan g') < 2 ^ 64.
Proof.
  intros Hok H. apply thp_utilization_workfn_traced_inv in H.
  destruct H as (zn & _ & H).
  set (g0 := with_scan (set_scan_zone
               (Some (default first_online_zone (scan_zone (thp_scan g))))) g)
    in H.
  destruct (negb (managed_zone zn) || _).
  - destruct H as (b & Hnz & _).
    apply thp_scan_next_zone_traced_inv in Hnz.
    destruct Hnz as (? & ? & zn' & _ & _ & _ & _ & _ & _ & -> & _).
    rewrite (zone_entry_cursor Hok).
    pose proof (to_ulong_range (zone_start_pfn zn' + HPAGE_PMD_NR - 1)) as Ha.
    rewrite (HPAGE_PMD_SIZE_pow2 Hok).
    destruct Hok as (H0 & H1 & H2 & H3).
    assert (0 < 2 ^ HPAGE_PMD_SHIFT) by (apply Z.pow_pos_nonneg; lia).
    pose proof (Z.mul_div_le (to_ulong (zone_start_pfn zn' + HPAGE_PMD_NR - 1))
                  (2 ^ HPAGE_PMD_SHIFT) ltac:(done)).
    assert (0 <= to_ulong (zone_start_pfn zn' + HPAGE_PMD_NR - 1) /
                 2 ^ HPAGE_PMD_SHIFT) by (apply Z.div_pos; lia).
    nia.
  - destruct H as (tr & Hscan & _). rewrite thp_util_scan_traced_eq in Hscan.
    assert ((thp_util_scan_loop db (zone_end_pfn zn) THP_UTIL_SCAN_SIZE g0).1
            = g') as <- by (rewrite Hscan; reflexivity).
    rewrite thp_util_scan_loop_pfn by discriminate.
    apply to_ulong_range.
Qed.

(** X9: from boot on, after any number of firings, the cursor is a multiple
    of HPAGE_PMD_NR and a valid [unsigned long]. *)
Theorem cursor_aligned_from_boot {P : platform} (zones : list zone)
    (ticks : list (page_frame_db * timespec64))
    (g : globals) (log : list (Z * Z)) :
  platform_ok ->
  run zones ticks init_globals [] = Some (g, log) ->
  (HPAGE_PMD_NR | pfn (thp_scan g)) /\ 0 <= pfn (thp_scan g) < 2 ^ 64.
Proof.
  intros Hok Hrun. split.
  - eapply (run_cursor_aligned Hok); [exact Hrun|]. cbn. apply Z.divide_0_r.
  - assert (forall g0 log0,
              0 <= pfn (thp_scan g0) < 2 ^ 64 ->
              run zones ticks g0 log0 = Some (g, log) ->
              0 <= pfn (thp_scan g) < 2 ^ 64) as Hgen.
    { clear Hrun. induction ticks as [|[db now] ticks IH]; intros g0 log0 Hr H.
      - cbn in H. by injection H as <- _.
      - cbn [run] in H.
        destruct (thp_utilization_workfn_traced zones db now g0)
          as [[g1 f]|] eqn:E; cbn in H; [|done].
        eapply IH; [|exact H].
        eapply thp_utilization_workfn_pfn_range; eauto. }
    eapply Hgen; [|exact Hrun]. cbn. lia.
Qed.

Lemma cursor_aligned_from_boot_witness :
  (@HPAGE_PMD_NR x86_64 | pfn (thp_scan after_first_firing)) /\
  0 <= pfn (thp_scan after_first_firing) < 2 ^ 64.
Proof.
  apply (@cursor_aligned_from_boot x86_64 two_zones
           [(no_pages, Timespec64 1 0)] after_first_firing []).
  - unfold platform_ok; cbn; lia.
  - vm_compute. reflexivity.
Defined.

(** ** The published snapshot and the last completed pass *)

Lemma run_published_accounts {P : platform} (zones : list zone)
    (ticks : list (page_frame_db * timespec64))
    (g g' : globals) (log snap log' snap' : list (Z * Z)) :
  run_published zones ticks g log snap = Some (g', log', snap') ->
  accounts (buckets (thp_scan g)) log -> log_ok log ->
  accounts (buckets (thp_scan_debugfs g)) snap -> log_ok snap ->
  accounts (buckets (thp_scan_debugfs g')) snap' /\ log_ok snap' /\
  run zones ticks g log = Some (g', log').
Proof.
  revert g log snap.
  induction ticks as [|[db now] ticks IH]; intros g log snap H Ha Hl Hsa Hsl.
  - cbn [run_published] in H. simplify_eq.
    split; [done|]. split; [done|reflexivity].
  - cbn [run_published run] in *.
    destruct (thp_utilization_workfn_traced zones db now g) as [[g1 f]|] eqn:E;
      cbn [mbind option_bind] in *; [|done].
    destruct (thp_utilization_workfn_accounts zones db now g g1 f log E Ha Hl)
      as [Ha1 Hl1].
    pose proof (thp_utilization_workfn_snapshot zones db now g g1 f E) as Hs.
    apply (IH g1 _ _ H Ha1 Hl1).
    + destruct f as [tr|[|]]; cbn [snapshot_after]; by rewrite Hs.
    + destruct f as [tr|[|]]; cbn [snapshot_after]; done.
Qed.

(** X13: at any point of a run from boot, the buckets of the published
    snapshot hold the totals of the last completed pass ([snap], empty
    before the first publication), as long as that pass counted no more
    huge pages than the [int] counters can take: [nr_thps] is the number of
    its huge pages placed in the bucket, [nr_zero_pages] their zero pages,
    and the [nr_thps] add up to the number of huge pages it counted. *)
Theorem snapshot_accounting {P : platform} (zones : list zone)
    (ticks : list (page_frame_db * timespec64))
    (g : globals) (log snap : list (Z * Z)) :
  platform_ok ->
  run_published zones ticks init_globals [] [] = Some (g, log, snap) ->
  Z.of_nat (length snap) * HPAGE_PMD_NR <= INT_MAX ->
  run zones ticks init_globals [] = Some (g, log) /\
  (forall (i : nat) b, buckets (thp_scan_debugfs g) !! i = Some b ->
     nr_thps b = Z.of_nat (length (in_bucket (Z.of_nat i) snap)) /\
     nr_zero_pages b =
       nr_thps b * HPAGE_PMD_NR - Zsum (in_bucket (Z.of_nat i) snap) /\
     0 <= nr_zero_pages b) /\
  Zsum (nr_thps <$> buckets (thp_scan_debugfs g)) = Z.of_nat (length snap) /\
  length (buckets (thp_scan_debugfs g)) = Z.to_nat THP_UTIL_BUCKET_NR.
Proof.
  intros Hok Hrun Hbound.
  destruct (run_published_accounts zones ticks init_globals g [] [] log snap
              Hrun) as (Hacc & Hlog & Hr);
    [apply accounts_zero|constructor|apply accounts_zero|constructor|].
  destruct (accounts_exact Hok _ _ Hacc Hlog Hbound) as [Hb Hsum].
  split; [exact Hr|]. split; [exact Hb|]. split; [exact Hsum|apply Hacc].
Qed.

Lemma snapshot_accounting_witness :
  Zsum (nr_thps <$> buckets (thp_scan_debugfs after_two_zone_pass)) =
    Z.of_nat (length [(0, 1); (0, 1)]).
Proof.
  pose proof (@snapshot_accounting x86_64 two_zones
                (replicate 4 (one_thp sample_thp, Timespec64 1 0))
                after_two_zone_pass [] [(0, 1); (0, 1)]) as H.
  destruct H as (_ & _ & Hsum & _).
  - unfold platform_ok; cbn; lia.
  - vm_compute. reflexivity.
  - vm_compute. discriminate.
  - exact Hsum.
Defined.

(** ** Where a zone is entered, case by case *)

(** Rounding [start + n - 1] down to a multiple of [n * m], against
    rounding [start] up to a multiple of [n]. *)
Lemma round_down_cases (start n m : Z) :
  1 <= n -> 1 <= m -> 0 <= start ->
  let s := n * m in
  let a := start + n - 1 in
  let r := start mod s in
  0 <= r < s /\
  (r <= s - n -> a / s * s = start - r) /\
  (s - n < r -> a / s * s = start - r + s) /\
  (r = 0 -> a / n * n = start) /\
  (s - n < r -> a / n * n = start - r + s) /\
  start <= a / n * n.
Proof.
  intros Hn Hm Hs s a r.
  assert (1 <= s) as Hs1 by (subst s; nia).
  assert (n <= s) as Hns by (subst s; nia).
  pose proof (Z.mod_pos_bound start s ltac:(lia)) as Hr. fold r in Hr.
  pose proof (Z.div_mod start s ltac:(lia)) as Hdm. fold r in Hdm.
  set (k := start / s) in *.
  split; [done|].
  split; [|split; [|split; [|split]]].
  - intros Hle.
    assert (a / s = k) as ->.
    { symmetry. apply (Z.div_unique a s k (r + n - 1)); [lia|].
      subst a. lia. }
    lia.
  - intros Hgt.
    assert (a / s = k + 1) as ->.
    { symmetry. apply (Z.div_unique a s (k + 1) (r + n - 1 - s)); [lia|].
      subst a. lia. }
    lia.
  - intros H0.
    assert (a / n = m * k) as ->.
    { symmetry. apply (Z.div_unique a n (m * k) (n - 1)); [lia|].
      subst a s. lia. }
    subst s. lia.
  - intros Hgt.
    assert (a / n = m * (k + 1)) as ->.
    { symmetry. apply (Z.div_unique a n (m * (k + 1)) (r + n - 1 - s)); [lia|].
      subst a s. lia. }
    subst s. lia.
  - pose proof (Z.mod_pos_bound a n ltac:(lia)).
    pose proof (Z.div_mod a n ltac:(lia)). subst a. lia.
Qed.

(** X10: [thp_scan_next_zone] puts the cursor at the multiple of
    HPAGE_PMD_SIZE frames at or below [zone_start_pfn + HPAGE_PMD_NR - 1].
    With [r] the zone's start modulo HPAGE_PMD_SIZE: the cursor is the
    start itself when [r = 0], the next multiple of HPAGE_PMD_SIZE when
    [r > HPAGE_PMD_SIZE - HPAGE_PMD_NR], and [r] frames below the zone's
    start otherwise.  It is the zone's first huge-page-aligned frame in the
    first two cases and in no other. *)
Theorem zone_entry_cases {P : platform} (zones : list zone) (now : timespec64)
    (g g' : globals) (published : bool) (zi : nat) (zn : zone) :
  platform_ok ->
  thp_scan_next_zone_traced zones now g = Some (g', published) ->
  scan_zone (thp_scan g') = Some zi -> zones !! zi = Some zn ->
  0 <= zone_start_pfn zn ->
  zone_start_pfn zn + HPAGE_PMD_NR - 1 < 2 ^ 64 ->
  let start := zone_start_pfn zn in
  let c := pfn (thp_scan g') in
  let r := start mod HPAGE_PMD_SIZE in
  (HPAGE_PMD_SIZE | c) /\
  (r = 0 -> c = start) /\
  (0 < r <= HPAGE_PMD_SIZE - HPAGE_PMD_NR -> c = start - r) /\
  (HPAGE_PMD_SIZE - HPAGE_PMD_NR < r -> c = start - r + HPAGE_PMD_SIZE) /\
  (c = first_aligned_frame zn <->
   r = 0 \/ HPAGE_PMD_SIZE - HPAGE_PMD_NR < r).
Proof.
  intros Hok Hnz Hzi Hzn H0 Hmax start c r.
  apply thp_scan_next_zone_traced_inv in Hnz.
  destruct Hnz as (? & zi' & zn' & _ & _ & _ & Hzn' & _ & Hzi' & Hc & _).
  assert (zi' = zi) as -> by congruence.
  assert (zn' = zn) as -> by congruence.
  rewrite (zone_entry_cursor Hok) in Hc. fold c in Hc. fold start in Hc.
  pose proof (HPAGE_PMD_NR_bounds Hok) as HN.
  rewrite to_ulong_id in Hc by (subst start; lia).
  destruct (HPAGE_PMD_NR_divides_size Hok) as [m Hm].
  assert (1 <= m) as Hm1.
  { pose proof (HPAGE_PMD_SIZE_pow2 Hok) as Hp.
    destruct Hok as (? & ? & ? & ?).
    assert (0 < HPAGE_PMD_SIZE)
      by (rewrite Hp; apply Z.pow_pos_nonneg; lia).
    nia. }
  assert (HPAGE_PMD_SIZE = HPAGE_PMD_NR * m) as Hsz by lia.
  pose proof (round_down_cases start HPAGE_PMD_NR m (proj1 HN) Hm1 H0)
    as (Hr & Hlow & Hhigh & Hup0 & Hup1 & Hge).
  rewrite <- Hsz in *. fold r in Hr, Hlow, Hhigh, Hup0, Hup1.
  unfold first_aligned_frame. fold start.
  split; [rewrite Hc; apply Z.divide_factor_r|].
  split; [intros Hr0; rewrite Hc, Hlow by lia; lia|].
  split; [intros Hmid; rewrite Hc, Hlow by lia; lia|].
  split; [intros Hgt; rewrite Hc; by apply Hhigh|].
  split.
  - intros Heq.
    destruct (decide (r = 0)) as [|Hne]; [by left|right].
    destruct (decide (HPAGE_PMD_SIZE - HPAGE_PMD_NR < r)); [done|exfalso].
    rewrite Hc, Hlow in Heq by lia. lia.
  - intros [Hr0|Hgt].
    + rewrite Hc, Hlow, Hup0 by lia. lia.
    + rewrite Hc, Hhigh, Hup1 by lia. done.
Qed.

Lemma zone_entry_cases_witness :
  0 = zone_start_pfn (Zone 4096 1048576 true) -
      zone_start_pfn (Zone 4096 1048576 true) mod @HPAGE_PMD_SIZE x86_64.
Proof.
  pose proof (@zone_entry_cases x86_64 x86_zones (Timespec64 0 0)
                at_end_of_dma
                (Globals zero_scan_info
                   (ScanInfo zero_buckets (Some 1%nat) (Timespec64 0 0)
                             (Timespec64 0 0) 0))
                false 1%nat (Zone 4096 1048576 true)) as H.
  destruct H as (_ & _ & Hbelow & _).
  - unfold platform_ok; cbn; lia.
  - vm_compute. reflexivity.
  - reflexivity.
  - reflexivity.
  - cbn. lia.
  - vm_compute. reflexivity.
  - apply Hbelow. vm_compute. split; [reflexivity|discriminate].
Defined.

(** ** How many frames a scan examines *)

Section ScanCount.
Context {P : platform}.
Hypothesis Hok : platform_ok.

Lemma frames_left_nonneg c e : 0 <= frames_left c e.
Proof.
  pose proof (HPAGE_PMD_NR_bounds Hok). unfold frames_left.
  destruct (e <=? c) eqn:E; [done|]. apply Z.leb_gt in E.
  apply Z.div_pos; lia.
Qed.

Lemma frames_left_end c e : e <= c -> frames_left c e = 0.
Proof.
  intros H. unfold frames_left. by rewrite (proj2 (Z.leb_le e c) H).
Qed.

Lemma frames_left_step c e :
  c < e -> frames_left c e = frames_left (c + HPAGE_PMD_NR) e + 1.
Proof.
  intros H. pose proof (HPAGE_PMD_NR_bounds Hok) as HN. unfold frames_left.
  rewrite (proj2 (Z.leb_gt e c) H).
  destruct (e <=? c + HPAGE_PMD_NR) eqn:E.
  - apply Z.leb_le in E. symmetry.
    apply (Z.div_unique _ HPAGE_PMD_NR 1 (e - c - 1)); lia.
  - apply Z.leb_gt in E.
    replace (e - c + HPAGE_PMD_NR - 1)
      with (e - (c + HPAGE_PMD_NR) + HPAGE_PMD_NR - 1 + 1 * HPAGE_PMD_NR)
      by lia.
    rewrite Z.div_add by lia. done.
Qed.

Lemma thp_util_scan_loop_count db e n g :
  e <= 2 ^ 31 -> 0 <= pfn (thp_scan g) < 2 ^ 32 ->
  Z.of_nat (length (thp_util_scan_loop db e n g).2) =
    Z.min (Z.of_nat n) (frames_left (pfn (thp_scan g)) e + 1) /\
  (last (thp_util_scan_loop db e n g).2 = Some ScanReturn <->
   frames_left (pfn (thp_scan g)) e < Z.of_nat n).
Proof.
  intros He. pose proof (HPAGE_PMD_NR_bounds Hok) as HN.
  revert g. induction n as [|n IH]; intros g Hp.
  - pose proof (frames_left_nonneg (pfn (thp_scan g)) e).
    cbn [thp_util_scan_loop snd length last]. split; [lia|].
    split; [done|lia].
  - cbn [thp_util_scan_loop].
    pose proof (thp_util_scan_iter_pfn db e g) as Hpfn.
    pose proof (thp_util_scan_iter_return db e g) as Hret.
    rewrite zone_end_reached_low in Hret by done.
    destruct (thp_util_scan_iter db e g) as [g' o]. cbn [fst snd] in *.
    destruct (decide (e <= pfn (thp_scan g))) as [Hend|Hgo].
    + assert (o = ScanReturn) as -> by (apply Hret, Z.leb_le; done).
      rewrite (frames_left_end _ _ Hend). cbn [snd length last].
      split; [lia|]. split; [lia|done].
    + assert (o <> ScanReturn) as Ho.
      { intros Hr. apply Hret, Z.leb_le in Hr. lia. }
      rewrite to_ulong_id in Hpfn by lia.
      specialize (IH g' ltac:(lia)). rewrite Hpfn in IH.
      rewrite (frames_left_step (pfn (thp_scan g)) e) by lia.
      pose proof (frames_left_nonneg (pfn (thp_scan g) + HPAGE_PMD_NR) e).
      destruct (thp_util_scan_loop db e n g') as [g'' tr].
      cbn [fst snd] in IH. destruct IH as [IHlen IHlast].
      assert (Z.of_nat (length (o :: tr)) =
              Z.min (Z.of_nat (S n))
                    (frames_left (pfn (thp_scan g) + HPAGE_PMD_NR) e + 1 + 1))
        as Hlen by (cbn [length]; lia).
      assert (last (o :: tr) = Some ScanReturn <->
              frames_left (pfn (thp_scan g) + HPAGE_PMD_NR) e + 1
                < Z.of_nat (S n)) as Hlast.
      { rewrite last_cons. destruct (last tr) as [y|] eqn:Hl.
        - rewrite IHlast. lia.
        - apply last_None in Hl. subst tr. cbn [length] in IHlen.
          split; [intros [= ->]; done|]. intros Hlt. exfalso.
          assert (frames_left (pfn (thp_scan g) + HPAGE_PMD_NR) e
                    < Z.of_nat n) as Hn by lia.
          apply IHlast in Hn. done. }
      destruct o; [done| |]; cbn [snd]; by split.
Qed.

End ScanCount.

(** X11: in a zone that ends at or below frame 2^31, a scan entered with
    the cursor at [c] runs one iteration for each huge-page step from [c]
    that starts below the zone's end, and one more that meets the end and
    returns, but 256 at most: [min 256 (frames_left c pfn_end + 1)]
    iterations, the last of which is the [return] exactly when fewer than
    256 steps were left. *)
Theorem scan_iterations_exact {P : platform}
    (db : page_frame_db) (pfn_end : Z) (g : globals) :
  platform_ok -> pfn_end <= 2 ^ 31 -> 0 <= pfn (thp_scan g) < 2 ^ 32 ->
  Z.of_nat (length (thp_util_scan_traced db pfn_end g).2) =
    Z.min 256 (frames_left (pfn (thp_scan g)) pfn_end + 1) /\
  (last (thp_util_scan_traced db pfn_end g).2 = Some ScanReturn <->
   frames_left (pfn (thp_scan g)) pfn_end < 256) /\
  pfn (thp_scan (thp_util_scan db pfn_end g)) =
    pfn (thp_scan g) +
    Z.min 256 (frames_left (pfn (thp_scan g)) pfn_end + 1) * HPAGE_PMD_NR.
Proof.
  intros Hok He Hp. pose proof (HPAGE_PMD_NR_bounds Hok) as HN.
  unfold thp_util_scan. rewrite thp_util_scan_traced_eq.
  pose proof (thp_util_scan_loop_count Hok db pfn_end THP_UTIL_SCAN_SIZE g
                He Hp) as [Hlen Hlast].
  change (Z.of_nat THP_UTIL_SCAN_SIZE) with 256 in Hlen, Hlast.
  split; [exact Hlen|]. split; [exact Hlast|].
  rewrite thp_util_scan_loop_pfn by discriminate.
  rewrite Hlen. apply to_ulong_id.
  pose proof (frames_left_nonneg Hok (pfn (thp_scan g)) pfn_end).
  nia.
Qed.

Lemma scan_iterations_exact_witness :
  Z.of_nat (length (@thp_util_scan_traced x86_64 no_pages 1024
                      init_globals).2) =
    Z.min 256 (@frames_left x86_64 (pfn (thp_scan init_globals)) 1024 + 1).
Proof.
  refine (proj1 (@scan_iterations_exact x86_64 no_pages 1024 init_globals
                   _ _ _)).
  - unfold platform_ok; cbn; lia.
  - lia.
  - cbn; lia.
Defined.

(** ** The firing after the end of a zone *)

(** X15: in a zone that ends at or below frame 2^31, once a scanning firing
    has met the zone's end, the cursor it leaves is at or past that end,
    and the next firing, whatever memory and time it sees, does not scan:
    it moves to the next zone. *)
Theorem zone_end_then_next_zone {P : platform}
    (zones : list zone) (db db' : page_frame_db) (now now' : timespec64)
    (g g1 : globals) (tr : list scan_outcome) (zn : zone) :
  platform_ok ->
  zones !! default first_online_zone (scan_zone (thp_scan g)) = Some zn ->
  zone_end_pfn zn <= 2 ^ 31 -> 0 <= pfn (thp_scan g) ->
  thp_utilization_workfn_traced zones db now g = Some (g1, FiringScan tr) ->
  last tr = Some ScanReturn ->
  zone_end_pfn zn <= pfn (thp_scan g1) /\
  exists g2 published,
    thp_utilization_workfn_traced zones db' now' g1 =
      Some (g2, FiringNextZone published).
Proof.
  intros Hok Hzn He Hp H Hlast.
  pose proof (HPAGE_PMD_NR_bounds Hok) as HN.
  assert (0 < HPAGE_PMD_NR) as Hpos by lia.
  assert (HPAGE_PMD_NR <> 0) as Hnz0 by lia.
  set (z := default first_online_zone (scan_zone (thp_scan g))) in *.
  apply thp_utilization_workfn_traced_inv in H.
  destruct H as (zn' & Hzn' & H). fold z in Hzn', H.
  assert (zn' = zn) as -> by congruence.
  set (g0 := with_scan (set_scan_zone (Some z)) g) in H.
  destruct (negb (managed_zone zn) || (zone_end_pfn zn <=? pfn (thp_scan g)))
    eqn:Hguard; [by destruct H as (? & _ & ?)|].
  destruct H as (tr' & Hscan & [= <-]).
  apply orb_false_elim in Hguard as [_ Hlt]. apply Z.leb_gt in Hlt.
  assert (pfn (thp_scan g0) = pfn (thp_scan g)) as Hp0 by reflexivity.
  pose proof (thp_util_scan_loop_count Hok db (zone_end_pfn zn)
                THP_UTIL_SCAN_SIZE g0 He ltac:(rewrite Hp0; lia))
    as [Hlen Hl].
  pose proof (thp_util_scan_loop_pfn db (zone_end_pfn zn)
                THP_UTIL_SCAN_SIZE g0 ltac:(discriminate)) as Hpfn.
  pose proof (thp_util_scan_loop_frame db (zone_end_pfn zn)
                THP_UTIL_SCAN_SIZE g0) as [_ Hsz].
  rewrite thp_util_scan_traced_eq in Hscan.
  rewrite Hscan in Hlen, Hl, Hpfn, Hsz. cbn [fst snd] in *.
  rewrite Hp0 in *. apply Hl in Hlast.
  change (Z.of_nat THP_UTIL_SCAN_SIZE) with 256 in Hlen, Hlast.
  pose proof (frames_left_nonneg Hok (pfn (thp_scan g)) (zone_end_pfn zn))
    as Hfl.
  assert (zone_end_pfn zn - pfn (thp_scan g) <=
          frames_left (pfn (thp_scan g)) (zone_end_pfn zn) * HPAGE_PMD_NR)
    as Hcover.
  { unfold frames_left. rewrite (proj2 (Z.leb_gt _ _) Hlt).
    pose proof (Z.mod_pos_bound
                  (zone_end_pfn zn - pfn (thp_scan g) + HPAGE_PMD_NR - 1)
                  HPAGE_PMD_NR Hpos) as Hm.
    pose proof (Z.div_mod
                  (zone_end_pfn zn - pfn (thp_scan g) + HPAGE_PMD_NR - 1)
                  HPAGE_PMD_NR Hnz0) as Hdm.
    lia. }
  assert (zone_end_pfn zn <= pfn (thp_scan g1)) as Hpast.
  { rewrite Hpfn, Hlen, to_ulong_id; nia. }
  split; [exact Hpast|].
  assert (scan_zone (thp_scan g1) = Some z) as Hz1 by (by rewrite Hsz).
  pose proof (lookup_lt_Some _ _ _ Hzn) as Hzlt.
  destruct (thp_scan_next_zone_traced_total zones now' g1 z Hz1 Hzlt)
    as (g2 & published & Hnz & _).
  exists g2, published. unfold thp_utilization_workfn_traced.
  rewrite Hz1. cbn [mbind option_bind]. rewrite Hz1. cbn [mbind option_bind].
  rewrite Hzn. cbn [mbind option_bind].
  rewrite (proj2 (Z.leb_le _ _) Hpast), orb_true_r, Hnz. reflexivity.
Qed.

Lemma zone_end_then_next_zone_witness :
  zone_end_pfn (Zone 0 1024 true) <= pfn (thp_scan after_first_firing) /\
  exists g2 published,
    @thp_utilization_workfn_traced x86_64 two_zones no_pages (Timespec64 2 0)
      after_first_firing = Some (g2, FiringNextZone published).
Proof.
  apply (@zone_end_then_next_zone x86_64 two_zones no_pages no_pages
           (Timespec64 1 0) (Timespec64 2 0) init_globals after_first_firing
           [ScanSkip; ScanSkip; ScanReturn] (Zone 0 1024 true)).
  - unfold platform_ok; cbn; lia.
  - reflexivity.
  - cbn; lia.
  - cbn; lia.
  - vm_compute. reflexivity.
  - reflexivity.
Defined.
